(** * Smoothing voter (Home Assistant custom component)

    A shallow embedding of
    [custom_components/smoothing_voter/sensor.py],
    [config_flow.py] and [const.py]: the function [smoothing_voter], the
    class [SmoothingVoterSensorGroup], the set-up of a config entry and the
    two configuration flows.

    Modelling choices.
    - A reading is a Python [float], a finite binary64 number; it is
      modelled by the rational number it denotes, a value of [Q].
      Comparisons of finite floats are comparisons of these rationals.
      Subtraction rounds: [x - y] in Python is [fsub x y], the exact
      difference rounded to the nearest binary64 number, ties to even, with
      subnormal numbers; a difference that overflows is represented by
      [2 ^ 1024] or [- 2 ^ 1024], which compare with every finite float as
      the infinities do.  [abs] is exact.  NaN and the sign of zero are not
      represented.
    - [len], list indices and [range] bounds are natural numbers.  The only
      subtraction on them is [n - m + 1] with [m = (n + 1) // 2 <= n], so
      truncated subtraction agrees with Python's integers there.
    - Python exceptions are values of [exn]; a computation that may raise
      returns a [result]. *)

From Stdlib Require Import String List Bool Arith Lia.
From Stdlib Require Import ZArith QArith Qabs Qround Qpower Lqa.
From Stdlib Require Import Permutation Sorted.
Import ListNotations.

Open Scope string_scope.
Open Scope nat_scope.

(** ** Exceptions *)

Inductive exn : Type :=
| ValueError (msg : string)
| KeyError (msg : string)
| IndexError (msg : string)
| TypeError (msg : string)
| HomeAssistantError (msg : string).

Inductive result (A : Type) : Type :=
| Ok (a : A)
| Raise (e : exn).

Arguments Ok {A} a.
Arguments Raise {A} e.

Definition bind {A B : Type} (c : result A) (k : A -> result B) : result B :=
  match c with
  | Ok a => k a
  | Raise e => Raise e
  end.

Notation "x <- c ;; k" := (bind c (fun x => k))
  (at level 61, c at next level, right associativity).

(** The error [smoothing_voter] raises on fewer than three inputs
    (the specification's [InsufficientInputs]). *)
Definition InsufficientInputs : exn :=
  ValueError "Smoothing voter requires at least three inputs.".

(** ** Float arithmetic *)

(** Rounding of a rational to the nearest integer, ties to the even one. *)
Definition rne (q : Q) : Z :=
  let f := Qfloor q in
  match (q - inject_Z f ?= 1 # 2)%Q with
  | Lt => f
  | Gt => (f + 1)%Z
  | Eq => if Z.even f then f else (f + 1)%Z
  end.

(** The exponent of the last place of the binary64 numbers around [a >= 0]:
    [floor (log2 a) - 52], and [-1074] in the subnormal range.  The binary
    logarithm is read off the integer part of [a * 2 ^ 1126]. *)
Definition exponent (a : Q) : Z :=
  Z.max (Z.log2 (Qfloor (a * 2 ^ 1126)) - 1178) (-1074).

(** [a >= 0] rounded to a multiple of [2 ^ exponent a]: to 53 significant
    bits, or fewer in the subnormal range. *)
Definition rounded (a : Q) : Q :=
  (inject_Z (rne (a / 2 ^ exponent a)) * 2 ^ exponent a)%Q.

(** The magnitude of the float nearest to [a >= 0]; [2 ^ 1024] stands for a
    result that overflows. *)
Definition round_magnitude (a : Q) : Q :=
  let r := rounded a in
  if Qle_bool (2 ^ 1024) r then (2 ^ 1024)%Q else r.

(** The binary64 number nearest to [x], ties to even: the value of the
    float literal or of the result of a float operation whose exact value
    is [x]. *)
Definition fl (x : Q) : Q :=
  let q := Qred x in
  if Qle_bool 0 q then round_magnitude q else (- round_magnitude (- q))%Q.

(** [x - y] on floats. *)
Definition fsub (x y : Q) : Q := fl (x - y).

(** ** Python built-ins used by the voter *)

(** [a < b] on readings. *)
Definition Qlt_bool (a b : Q) : bool := negb (Qle_bool b a).

(** [sorted(l)]: a stable sort that compares with [<] only.  [insert x l]
    puts [x] in front of the first element that is not smaller than [x], so
    an element that came first in the input stays in front of its equals. *)
Fixpoint insert (x : Q) (l : list Q) : list Q :=
  match l with
  | [] => [x]
  | y :: t => if Qlt_bool y x then y :: insert x t else x :: y :: t
  end.

Fixpoint sorted (l : list Q) : list Q :=
  match l with
  | [] => []
  | x :: t => insert x (sorted t)
  end.

(** [l[i:j]]: slices clamp to the list, they never raise. *)
Definition slice {A : Type} (l : list A) (i j : nat) : list A :=
  firstn (j - i) (skipn i l).

(** [l[i]] for a non-negative index. *)
Definition py_index {A : Type} (l : list A) (i : nat) : result A :=
  match nth_error l i with
  | Some x => Ok x
  | None => Raise (IndexError "list index out of range")
  end.

(** [min(l, key=key)]: the first element whose key is minimal; the running
    minimum is replaced only by an element with a strictly smaller key. *)
Definition min_step (key : Q -> Q) (acc y : Q) : Q :=
  if Qlt_bool (key y) (key acc) then y else acc.

Definition py_min_key (key : Q -> Q) (l : list Q) : result Q :=
  match l with
  | [] => Raise (ValueError "min() arg is an empty sequence")
  | x :: t => Ok (fold_left (min_step key) t x)
  end.

Definition py_min (l : list Q) : result Q := py_min_key (fun x => x) l.

(** [max(l)]: the first maximal element; the running maximum is replaced
    only by a strictly greater element. *)
Definition max_step (acc y : Q) : Q :=
  if Qlt_bool acc y then y else acc.

Definition py_max (l : list Q) : result Q :=
  match l with
  | [] => Raise (ValueError "max() arg is an empty sequence")
  | x :: t => Ok (fold_left max_step t x)
  end.

(** ** The voter *)

(** [m = (n + 1) // 2]. *)
Definition window_length (n : nat) : nat := (n + 1) / 2.

(** The [for i in range(n - m + 1)] loop over the remaining offsets:
    [Ok (Some r)] when the body returns [r], [Ok None] when the loop runs
    to its end. *)
Fixpoint window_loop (sorted_inputs : list Q) (m : nat) (voter_threshold : Q)
    (offsets : list nat) : result (option (option Q * string)) :=
  match offsets with
  | [] => Ok None
  | i :: rest =>
      let subset := slice sorted_inputs i (i + m) in
      hi <- py_max subset ;;
      lo <- py_min subset ;;
      if Qle_bool (fsub hi lo) voter_threshold then
        v <- py_index subset (m / 2) ;;
        Ok (Some (Some v, "median"))
      else window_loop sorted_inputs m voter_threshold rest
  end.

Definition smoothing_voter (inputs : list Q) (prev_output : option Q)
    (voter_threshold smoothing_threshold : Q) : result (option Q * string) :=
  let n := length inputs in
  if n <? 3 then Raise InsufficientInputs
  else
    let sorted_inputs := sorted inputs in
    let m := window_length n in
    found <- window_loop sorted_inputs m voter_threshold (seq 0 (n - m + 1)) ;;
    match found with
    | Some r => Ok r
    | None =>
        match prev_output with
        | None =>
            v <- py_index sorted_inputs (n / 2) ;;
            Ok (Some v, "median")
        | Some p =>
            closest_input <- py_min_key (fun x => Qabs (fsub x p)) inputs ;;
            if Qle_bool (Qabs (fsub closest_input p)) smoothing_threshold
            then Ok (Some closest_input, "smoothed")
            else Ok (None, "none")
        end
    end.

(** ** The sensor group *)

(** [homeassistant.core.State]: the two members the update reads,
    [state.state] and [state.attributes.get("unit_of_measurement")]. *)
Record State : Type := {
  state : string;
  unit_of_measurement : option string
}.

(** The attributes of the base class [SensorGroup] that the update reads. *)
Record SensorGroup : Type := {
  _entity_ids : list string;
  _valid_units : list (option string);
  _can_convert : bool;
  device_class : option string;
  native_unit_of_measurement : option string
}.

Record SmoothingVoterSensorGroup : Type := {
  base : SensorGroup;
  _attr_available : bool;
  _attr_native_value : option Q;
  _voter_threshold : Q;
  _smoothing_threshold : Q;
  _prev_output : option Q;
  _calculation_type : string
}.

(** [__init__]: no previous output, classification ["none"].  The method
    assigns neither [_attr_available], which is the class attribute of the
    base class, [False], nor [_attr_native_value]. *)
Definition init (b : SensorGroup) (voter_threshold smoothing_threshold : Q)
  : SmoothingVoterSensorGroup :=
  {| base := b;
     _attr_available := false;
     _attr_native_value := None;
     _voter_threshold := voter_threshold;
     _smoothing_threshold := smoothing_threshold;
     _prev_output := None;
     _calculation_type := "none" |}.

Definition set_base (self : SmoothingVoterSensorGroup) (b : SensorGroup) :=
  {| base := b;
     _attr_available := _attr_available self;
     _attr_native_value := _attr_native_value self;
     _voter_threshold := _voter_threshold self;
     _smoothing_threshold := _smoothing_threshold self;
     _prev_output := _prev_output self;
     _calculation_type := _calculation_type self |}.

Definition set_attr_available (self : SmoothingVoterSensorGroup) (a : bool) :=
  {| base := base self;
     _attr_available := a;
     _attr_native_value := _attr_native_value self;
     _voter_threshold := _voter_threshold self;
     _smoothing_threshold := _smoothing_threshold self;
     _prev_output := _prev_output self;
     _calculation_type := _calculation_type self |}.

Definition set_attr_native_value (self : SmoothingVoterSensorGroup)
    (v : option Q) :=
  {| base := base self;
     _attr_available := _attr_available self;
     _attr_native_value := v;
     _voter_threshold := _voter_threshold self;
     _smoothing_threshold := _smoothing_threshold self;
     _prev_output := _prev_output self;
     _calculation_type := _calculation_type self |}.

Definition set_prev_output (self : SmoothingVoterSensorGroup) (v : option Q) :=
  {| base := base self;
     _attr_available := _attr_available self;
     _attr_native_value := _attr_native_value self;
     _voter_threshold := _voter_threshold self;
     _smoothing_threshold := _smoothing_threshold self;
     _prev_output := v;
     _calculation_type := _calculation_type self |}.

Definition set_calculation_type (self : SmoothingVoterSensorGroup)
    (c : string) :=
  {| base := base self;
     _attr_available := _attr_available self;
     _attr_native_value := _attr_native_value self;
     _voter_threshold := _voter_threshold self;
     _smoothing_threshold := _smoothing_threshold self;
     _prev_output := _prev_output self;
     _calculation_type := c |}.

(** Ghost events of one update: the call of [smoothing_voter] with its
    arguments, and the entry into the [except ValueError] handler. *)
Inductive event : Type :=
| CallSmoothingVoter (inputs : list Q) (prev_output : option Q)
    (voter_threshold smoothing_threshold : Q)
| ExceptValueError.

(** What one update leaves behind: the sensor, the events in program order
    and the exception that left the method, if any. *)
Record outcome : Type := {
  after : SmoothingVoterSensorGroup;
  trace : list event;
  raised : option exn
}.

Definition uom_eq_dec (a b : option string) : {a = b} + {a <> b}.
Proof. decide equality; apply string_dec. Defined.

Section Platform.

(** Home Assistant, as far as the update calls into it. *)
Variable states_get : string -> option State.
(** [float(s)]; it raises [ValueError] on a non-numeric string. *)
Variable float : string -> result Q.
(** [UNIT_CONVERTERS[device_class].convert(value, from_unit, to_unit)]. *)
Variable unit_convert :
  option string -> Q -> option string -> option string -> result Q.
(** [_get_valid_entities] followed by [calculate_state_attributes]: they
    act on the attributes of the base class. *)
Variable calculate_state_attributes : SensorGroup -> SensorGroup.

(** The body of the [try] in the gathering loop. *)
Definition read_state (b : SensorGroup) (st : State) : result Q :=
  numeric_state <- float (state st) ;;
  let uom := unit_of_measurement st in
  if (negb (Nat.eqb (length (_valid_units b)) 0)
      && (if in_dec uom_eq_dec uom (_valid_units b) then true else false)
      && _can_convert b)%bool
  then unit_convert (device_class b) numeric_state uom
         (native_unit_of_measurement b)
  else Ok numeric_state.

(** [for entity_id in self._entity_ids]: [ValueError] and [KeyError] skip
    the entity, any other exception leaves the loop. *)
Fixpoint gather (b : SensorGroup) (entity_ids : list string)
    (sensor_values : list Q) (any_valid : bool) : result (list Q * bool) :=
  match entity_ids with
  | [] => Ok (sensor_values, any_valid)
  | entity_id :: rest =>
      match states_get entity_id with
      | None => gather b rest sensor_values any_valid
      | Some st =>
          match read_state b st with
          | Ok numeric_state =>
              gather b rest (sensor_values ++ [numeric_state]) true
          | Raise (ValueError _) | Raise (KeyError _) =>
              gather b rest sensor_values any_valid
          | Raise e => Raise e
          end
      end
  end.

Definition async_update_group_state (self : SmoothingVoterSensorGroup)
  : outcome :=
  let self := set_base self (calculate_state_attributes (base self)) in
  match gather (base self) (_entity_ids (base self)) [] false with
  | Raise e => {| after := self; trace := []; raised := Some e |}
  | Ok (sensor_values, any_valid) =>
      let self :=
        set_attr_available self
          (any_valid && (3 <=? length sensor_values))%bool in
      if negb (_attr_available self) then
        {| after :=
             set_calculation_type (set_attr_native_value self None) "none";
           trace := [];
           raised := None |}
      else
        let call :=
          CallSmoothingVoter sensor_values (_prev_output self)
            (_voter_threshold self) (_smoothing_threshold self) in
        match smoothing_voter sensor_values (_prev_output self)
                (_voter_threshold self) (_smoothing_threshold self) with
        | Ok (new_val, calc_type) =>
            let self := set_attr_native_value self new_val in
            let self := set_calculation_type self calc_type in
            let self :=
              match new_val with
              | Some _ => set_prev_output self new_val
              | None => self
              end in
            {| after := self; trace := [call]; raised := None |}
        | Raise (ValueError _) =>
            {| after :=
                 set_calculation_type (set_attr_native_value self None)
                   "none";
               trace := [call; ExceptValueError];
               raised := None |}
        | Raise e => {| after := self; trace := [call]; raised := Some e |}
        end
  end.

(** The readings of one cycle, as the update gathers them. *)
Definition readings (self : SmoothingVoterSensorGroup)
  : result (list Q * bool) :=
  let b := calculate_state_attributes (base self) in
  gather b (_entity_ids b) [] false.

(** The three ways through the method: the gathering loop raises; fewer
    than three readings; the voter is called and returns. *)
Inductive update_path (self : SmoothingVoterSensorGroup) (out : outcome)
  : Prop :=
| path_gather_raises (e : exn) :
    readings self = Raise e ->
    trace out = [] -> raised out = Some e ->
    _prev_output (after out) = _prev_output self ->
    update_path self out
| path_unavailable (sensor_values : list Q) (any_valid : bool) :
    readings self = Ok (sensor_values, any_valid) ->
    length sensor_values < 3 ->
    trace out = [] -> raised out = None ->
    _attr_available (after out) = false ->
    _attr_native_value (after out) = None ->
    _calculation_type (after out) = "none" ->
    _prev_output (after out) = _prev_output self ->
    update_path self out
| path_voted (sensor_values : list Q) (any_valid : bool)
    (new_val : option Q) (calc_type : string) :
    readings self = Ok (sensor_values, any_valid) ->
    3 <= length sensor_values ->
    smoothing_voter sensor_values (_prev_output self) (_voter_threshold self)
      (_smoothing_threshold self) = Ok (new_val, calc_type) ->
    match new_val with
    | Some x => In x sensor_values
                /\ (calc_type = "median" \/ calc_type = "smoothed")
    | None => calc_type = "none"
    end ->
    trace out = [CallSmoothingVoter sensor_values (_prev_output self)
                   (_voter_threshold self) (_smoothing_threshold self)] ->
    raised out = None ->
    _attr_available (after out) = true ->
    _attr_native_value (after out) = new_val ->
    _calculation_type (after out) = calc_type ->
    _prev_output (after out) =
      match new_val with
      | Some x => Some x
      | None => _prev_output self
      end ->
    update_path self out.

End Platform.

(** ** An example installation

    Three entities; [sensor.c] can report a non-numeric state. *)

Definition example_float (s : string) : result Q :=
  if string_dec s "100" then Ok 100%Q
  else if string_dec s "10" then Ok 10%Q
  else if string_dec s "50" then Ok 50%Q
  else Raise (ValueError "could not convert string to float").

Definition example_states (c : string) (entity_id : string) : option State :=
  if string_dec entity_id "sensor.a"
  then Some {| state := "100"; unit_of_measurement := None |}
  else if string_dec entity_id "sensor.b"
  then Some {| state := "10"; unit_of_measurement := None |}
  else if string_dec entity_id "sensor.c"
  then Some {| state := c; unit_of_measurement := None |}
  else None.

Definition example_convert (device_class : option string) (value : Q)
    (from_unit to_unit : option string) : result Q :=
  Ok value.

Definition example_group : SensorGroup :=
  {| _entity_ids := ["sensor.a"; "sensor.b"; "sensor.c"];
     _valid_units := [];
     _can_convert := false;
     device_class := None;
     native_unit_of_measurement := None |}.

(** The sensor after a cycle that produced 30. *)
Definition example_sensor : SmoothingVoterSensorGroup :=
  set_prev_output
    (set_calculation_type
       (set_attr_native_value (init example_group (1 # 2)%Q 1%Q) (Some 30%Q))
       "median")
    (Some 30%Q).

(** ** Vocabulary of the specification *)

(** The spread of the window of length [m] at offset [i] of an ascending
    list, [sorted[i+m-1] - sorted[i]], a float subtraction. *)
Definition window_spread (sorted_inputs : list Q) (m i : nat) : Q :=
  fsub (nth (i + m - 1) sorted_inputs 0%Q) (nth i sorted_inputs 0%Q).

(** The window at offset [i] qualifies: its spread is within the threshold. *)
Definition qualifies (sorted_inputs : list Q) (m : nat) (voter_threshold : Q)
    (i : nat) : Prop :=
  (window_spread sorted_inputs m i <= voter_threshold)%Q.

(** No window of [inputs] qualifies. *)
Definition no_window (inputs : list Q) (voter_threshold : Q) : Prop :=
  let n := length inputs in
  let m := window_length n in
  forall i, i <= n - m -> ~ qualifies (sorted inputs) m voter_threshold i.

(** [c], at index [k] of [l], has the least key of [l], and every element
    in front of it has a strictly greater key: [c] is the first element of
    least key. *)
Definition first_min (key : Q -> Q) (l : list Q) (k : nat) (c : Q) : Prop :=
  nth_error l k = Some c
  /\ (forall x, In x l -> (key c <= key x)%Q)
  /\ (forall j x, j < k -> nth_error l j = Some x -> (key c < key x)%Q).

(** The exact absolute distance of a reading to the previous output. *)
Definition distance (p x : Q) : Q := Qabs (x - p).

(** The distance as the code measures it, [abs(x - prev_output)] with the
    float subtraction. *)
Definition fdistance (p x : Q) : Q := Qabs (fsub x p).

(** The window length in the specification's words, [ceil((n+1)/2)]. *)
Definition spec_window_length (n : nat) : nat :=
  Z.to_nat (Qceiling (inject_Z (Z.of_nat n + 1) / 2)).

(** The inputs within [voter_threshold] of the value [v], by the float
    distance [abs(x - v)]. *)
Definition agreeing (v voter_threshold : Q) (inputs : list Q) : list Q :=
  filter (fun x => Qle_bool (fdistance v x) voter_threshold) inputs.

(** The four ways out of the voter on at least three inputs. *)
Inductive voter_case (inputs : list Q) (prev_output : option Q) (vt st : Q)
  : result (option Q * string) -> Prop :=
| case_window (i : nat) :
    i <= length inputs - window_length (length inputs) ->
    qualifies (sorted inputs) (window_length (length inputs)) vt i ->
    (forall j, j < i ->
       ~ qualifies (sorted inputs) (window_length (length inputs)) vt j) ->
    voter_case inputs prev_output vt st
      (Ok (Some (nth (i + window_length (length inputs) / 2)
                   (sorted inputs) 0%Q), "median"))
| case_fallback :
    no_window inputs vt -> prev_output = None ->
    voter_case inputs prev_output vt st
      (Ok (Some (nth (length inputs / 2) (sorted inputs) 0%Q), "median"))
| case_smoothed (p : Q) (k : nat) (c : Q) :
    no_window inputs vt -> prev_output = Some p ->
    first_min (fdistance p) inputs k c ->
    (fdistance p c <= st)%Q ->
    voter_case inputs prev_output vt st (Ok (Some c, "smoothed"))
| case_none (p : Q) (k : nat) (c : Q) :
    no_window inputs vt -> prev_output = Some p ->
    first_min (fdistance p) inputs k c ->
    (st < fdistance p c)%Q ->
    voter_case inputs prev_output vt st (Ok (None, "none")).

(** ** Vocabulary for the sensor group *)

(** A sensor is consistent when its classification is one of the three
    tags, it is ["none"] exactly when the native value is null, and a
    non-null native value is also the stored previous output. *)
Definition consistent (s : SmoothingVoterSensorGroup) : Prop :=
  (_calculation_type s = "median" \/ _calculation_type s = "smoothed"
   \/ _calculation_type s = "none")
  /\ (_calculation_type s = "none" <-> _attr_native_value s = None)
  /\ (forall v, _attr_native_value s = Some v -> _prev_output s = Some v).

(** What Home Assistant looks like to the sensor in one cycle: the state
    machine and the base-class attribute update, which reads it. *)
Record Hass : Type := {
  hass_states_get : string -> option State;
  hass_calculate_state_attributes : SensorGroup -> SensorGroup
}.

Section SensorVocabulary.

Variable states_get : string -> option State.
Variable float : string -> result Q.
Variable unit_convert :
  option string -> Q -> option string -> option string -> result Q.

(** The reading an entity contributes: its converted numeric state, or
    nothing when it has no state or reading it raises. *)
Definition entity_reading (b : SensorGroup) (entity_id : string) : list Q :=
  match states_get entity_id with
  | None => []
  | Some st =>
      match read_state float unit_convert b st with
      | Ok numeric_state => [numeric_state]
      | Raise _ => []
      end
  end.

(** The readings of the entities, in the order of the entity ids. *)
Definition readable (b : SensorGroup) (entity_ids : list string) : list Q :=
  flat_map (entity_reading b) entity_ids.

(** Reading the entity raises nothing but the two exceptions the gathering
    loop catches. *)
Definition skippable (b : SensorGroup) (entity_id : string) : Prop :=
  match states_get entity_id with
  | None => True
  | Some st =>
      match read_state float unit_convert b st with
      | Ok _ | Raise (ValueError _) | Raise (KeyError _) => True
      | Raise _ => False
      end
  end.

End SensorVocabulary.

(** A run of update cycles, one per snapshot of Home Assistant; an update
    that raises leaves the sensor as it was when the exception left it. *)
Fixpoint cycles (float : string -> result Q)
    (unit_convert :
       option string -> Q -> option string -> option string -> result Q)
    (snapshots : list Hass) (self : SmoothingVoterSensorGroup)
  : SmoothingVoterSensorGroup :=
  match snapshots with
  | [] => self
  | h :: rest =>
      cycles float unit_convert rest
        (after (async_update_group_state (hass_states_get h) float
                  unit_convert (hass_calculate_state_attributes h) self))
  end.

(** ** Further examples *)

(** A group of two entities only. *)
Definition example_pair_group : SensorGroup :=
  {| _entity_ids := ["sensor.a"; "sensor.b"];
     _valid_units := [];
     _can_convert := false;
     device_class := None;
     native_unit_of_measurement := None |}.

(** A freshly constructed sensor over the three example entities. *)
Definition example_fresh : SmoothingVoterSensorGroup :=
  init example_group (1 # 2)%Q 1%Q.

(** Two cycles of the example installation: [sensor.c] reads 50, then it
    is unavailable. *)
Definition example_snapshots : list Hass :=
  [ {| hass_states_get := example_states "50";
       hass_calculate_state_attributes := fun b => b |};
    {| hass_states_get := example_states "unavailable";
       hass_calculate_state_attributes := fun b => b |} ].

(** ** const.py *)

Definition DOMAIN : string := "smoothing_voter".
Definition CONF_ENTITIES : string := "entities".
Definition CONF_NAME : string := "name".
Definition CONF_VOTER_THRESHOLD : string := "voter_threshold".
Definition CONF_SMOOTHING_THRESHOLD : string := "smoothing_threshold".

Definition DEFAULT_NAME : string := "Smoothing Voter".
Definition DEFAULT_VOTER_THRESHOLD : Q := 1 # 2.
Definition DEFAULT_SMOOTHING_THRESHOLD : Q := 2.

(** ** Dictionaries *)

(** A dictionary over the four configuration keys, as the forms and the
    config entry hold it: each key is absent or carries a value of the type
    the form schema produces (text, a list of entity ids, and floats by
    [vol.Coerce(float)]). *)
Record ConfDict : Type := {
  conf_name : option string;
  conf_entities : option (list string);
  conf_voter_threshold : option Q;
  conf_smoothing_threshold : option Q
}.

(** [{}] *)
Definition conf_empty : ConfDict :=
  {| conf_name := None;
     conf_entities := None;
     conf_voter_threshold := None;
     conf_smoothing_threshold := None |}.

(** [d[key]]: [KeyError] on an absent key. *)
Definition getitem {A : Type} (field : option A) (key : string) : result A :=
  match field with
  | Some v => Ok v
  | None => Raise (KeyError key)
  end.

(** [d.get(key, default)] *)
Definition get_default {A : Type} (field : option A) (default : A) : A :=
  match field with
  | Some v => v
  | None => default
  end.

(** A dictionary with text keys, in insertion order. *)
Definition dict (V : Type) : Type := list (string * V).

Fixpoint dict_get {V : Type} (d : dict V) (k : string) : option V :=
  match d with
  | [] => None
  | (k', v) :: t => if string_dec k' k then Some v else dict_get t k
  end.

(** [d[k] = v]: an existing key keeps its place, a new key goes last. *)
Fixpoint dict_set {V : Type} (d : dict V) (k : string) (v : V) : dict V :=
  match d with
  | [] => [(k, v)]
  | (k', v') :: t =>
      if string_dec k' k then (k', v) :: t else (k', v') :: dict_set t k v
  end.

(** The values of state attributes. *)
Inductive Any : Type :=
| AnyNone
| AnyStr (s : string)
| AnyFloat (q : Q)
| AnyList (l : list string).

(** ** sensor.py, the rest of the class *)

(** [should_poll] *)
Definition should_poll (self : SmoothingVoterSensorGroup) : bool := false.

(** [extra_state_attributes]: [{**super().extra_state_attributes,
    "calculation_type": self._calculation_type}], given the attributes of
    the base class. *)
Definition extra_state_attributes (super_attributes : dict Any)
    (self : SmoothingVoterSensorGroup) : dict Any :=
  dict_set super_attributes "calculation_type"
    (AnyStr (_calculation_type self)).

Section Setup.

(** [SensorGroup.__init__(hass, unique_id, name, entity_ids,
    ignore_non_numeric, sensor_type, None, None, None)] of the base class. *)
Variable sensor_group_init :
  option string -> option string -> list string -> bool -> string ->
  SensorGroup.

(** [SmoothingVoterSensorGroup.__init__] *)
Definition new_sensor (unique_id name : option string)
    (entity_ids : list string) (ignore_non_numeric : bool)
    (voter_threshold smoothing_threshold : Q) : SmoothingVoterSensorGroup :=
  init (sensor_group_init unique_id name entity_ids ignore_non_numeric "mean")
    voter_threshold smoothing_threshold.

(** [async_setup_entry]: the arguments of its call of
    [async_add_entities], the list of new entities and
    [update_before_add]. *)
Definition async_setup_entry (entry_id : string) (options : ConfDict)
  : list SmoothingVoterSensorGroup * bool :=
  let name := conf_name options in
  let entities := get_default (conf_entities options) [] in
  let voter_threshold :=
    get_default (conf_voter_threshold options) (1 # 10)%Q in
  let smoothing_threshold :=
    get_default (conf_smoothing_threshold options) 1%Q in
  let ignore_non_numeric := true in
  let unique_id := Some entry_id in
  ([new_sensor unique_id name entities ignore_non_numeric voter_threshold
      smoothing_threshold],
   true).

End Setup.

(** ** config_flow.py *)

(** The defaults of a form schema; [None] for a required field without a
    default. *)
Record FormSchema : Type := {
  name_default : string;
  entities_default : option (list string);
  voter_threshold_default : Q;
  smoothing_threshold_default : Q
}.

(** What a flow step returns: [async_create_entry(title, data, options)],
    with [options] absent when the keyword is not given, or
    [async_show_form(step_id, data_schema, errors)]. *)
Inductive FlowResult : Type :=
| CreateEntry (title : string) (data : ConfDict) (options : option ConfDict)
| ShowForm (step_id : string) (data_schema : FormSchema)
    (errors : dict string).

Section ConfigFlow.

(** The entity registry of Home Assistant. *)
Variable EntityRegistry : Type.

(** [self.hass.helpers.entity_registry.async_get()], the look-up of the
    registry: a call into Home Assistant that returns the registry or
    raises; an exception it raises leaves the step. *)
Variable entity_registry_async_get : result EntityRegistry.

(** [async_validate_entity_ids(registry, entity_ids)]; an exception it
    raises leaves the step. *)
Variable async_validate_entity_ids :
  EntityRegistry -> list string -> result (list string).

(** [SmoothingVoterConfigFlow.async_step_user] *)
Definition async_step_user (user_input : option ConfDict)
  : result FlowResult :=
  let schema :=
    {| name_default := DEFAULT_NAME;
       entities_default := None;
       voter_threshold_default := DEFAULT_VOTER_THRESHOLD;
       smoothing_threshold_default := DEFAULT_SMOOTHING_THRESHOLD |} in
  match user_input with
  | Some user_input =>
      selected <- getitem (conf_entities user_input) CONF_ENTITIES ;;
      if 3 <=? length selected then
        registry <- entity_registry_async_get ;;
        entities <- async_validate_entity_ids registry selected ;;
        title <- getitem (conf_name user_input) CONF_NAME ;;
        voter_threshold <-
          getitem (conf_voter_threshold user_input) CONF_VOTER_THRESHOLD ;;
        smoothing_threshold <-
          getitem (conf_smoothing_threshold user_input)
            CONF_SMOOTHING_THRESHOLD ;;
        Ok (CreateEntry title conf_empty
              (Some {| conf_name := Some title;
                       conf_entities := Some entities;
                       conf_voter_threshold := Some voter_threshold;
                       conf_smoothing_threshold := Some smoothing_threshold |}))
      else
        Ok (ShowForm "user" schema [("base", "not_enough_entities")])
  | None => Ok (ShowForm "user" schema [])
  end.

(** [SmoothingVoterConfigFlow.async_step_import] *)
Definition async_step_import (user_input : option ConfDict)
  : result FlowResult :=
  async_step_user user_input.

(** [SmoothingVoterOptionsFlow.async_step_init], given the options of the
    config entry the flow was opened for. *)
Definition async_step_init (options : ConfDict)
    (user_input : option ConfDict) : result FlowResult :=
  let schema :=
    {| name_default := get_default (conf_name options) DEFAULT_NAME;
       entities_default := Some (get_default (conf_entities options) []);
       voter_threshold_default :=
         get_default (conf_voter_threshold options) DEFAULT_VOTER_THRESHOLD;
       smoothing_threshold_default :=
         get_default (conf_smoothing_threshold options)
           DEFAULT_SMOOTHING_THRESHOLD |} in
  match user_input with
  | Some user_input =>
      selected <- getitem (conf_entities user_input) CONF_ENTITIES ;;
      if 3 <=? length selected then
        registry <- entity_registry_async_get ;;
        entities <- async_validate_entity_ids registry selected ;;
        voter_threshold <-
          getitem (conf_voter_threshold user_input) CONF_VOTER_THRESHOLD ;;
        smoothing_threshold <-
          getitem (conf_smoothing_threshold user_input)
            CONF_SMOOTHING_THRESHOLD ;;
        name <- getitem (conf_name user_input) CONF_NAME ;;
        Ok (CreateEntry ""
              {| conf_name := Some name;
                 conf_entities := Some entities;
                 conf_voter_threshold := Some voter_threshold;
                 conf_smoothing_threshold := Some smoothing_threshold |}
              None)
      else
        Ok (ShowForm "init" schema [("base", "not_enough_entities")])
  | None => Ok (ShowForm "init" schema [])
  end.

End ConfigFlow.

(** ** An example configuration *)

Definition example_user_input : ConfDict :=
  {| conf_name := Some "Roof";
     conf_entities := Some ["sensor.a"; "sensor.b"; "sensor.c"];
     conf_voter_threshold := Some (1 # 2)%Q;
     conf_smoothing_threshold := Some 2%Q |}.

(** The same input with two entities selected. *)
Definition example_short_input : ConfDict :=
  {| conf_name := Some "Roof";
     conf_entities := Some ["sensor.a"; "sensor.b"];
     conf_voter_threshold := Some (1 # 2)%Q;
     conf_smoothing_threshold := Some 2%Q |}.

(** Options that carry entities and a name only. *)
Definition example_bare_options : ConfDict :=
  {| conf_name := Some "Roof";
     conf_entities := Some ["sensor.a"; "sensor.b"; "sensor.c"];
     conf_voter_threshold := None;
     conf_smoothing_threshold := None |}.

(** A look-up of the registry that fails for want of the [hass]
    argument. *)
Definition example_registry_lookup : result unit :=
  Raise (TypeError "async_get() missing 1 required positional argument").

(** A validation that accepts every entity id as it is. *)
Definition example_validate (registry : unit) (entity_ids : list string)
  : result (list string) :=
  Ok entity_ids.

(** A base-class constructor that stores the entity ids. *)
Definition example_sensor_group_init (unique_id name : option string)
    (entity_ids : list string) (ignore_non_numeric : bool)
    (sensor_type : string) : SensorGroup :=
  {| _entity_ids := entity_ids;
     _valid_units := [];
     _can_convert := false;
     device_class := None;
     native_unit_of_measurement := None |}.

(** ** Example inputs

    A decimal literal of Python denotes the nearest float: [0.1] is
    [fl (1 # 10)]. *)

(** [[2.1, 0.1, 1.1]]: the float difference [1.1 - 0.1] is exactly [1.0],
    although the exact difference of the two floats is above 1. *)
Definition example_tenths : list Q :=
  [fl (21 # 10); fl (1 # 10); fl (11 # 10)].

(** [[1.1, -0.9, 50.0]]: with previous output [0.1] the float distances of
    [1.1] and [-0.9] are both exactly [1.0]. *)
Definition example_tie : list Q :=
  [fl (11 # 10); fl (-9 # 10); 50%Q].

(** [[0.1, 1.1, 50.0, 50.5]] *)
Definition example_quad : list Q :=
  [fl (1 # 10); fl (11 # 10); 50%Q; (101 # 2)%Q].

(** [[-0.9, 1.1, 50.0]], the first two readings of [example_tie]
    exchanged. *)
Definition example_tie_swapped : list Q :=
  [fl (-9 # 10); fl (11 # 10); 50%Q].

(** * Properties *)

(** ** Comparisons *)

Lemma Qlt_bool_true (a b : Q) : Qlt_bool a b = true <-> (a < b)%Q.
Proof.
  unfold Qlt_bool. rewrite negb_true_iff. split; intro H.
  - apply Qnot_le_lt. intro Hle. apply Qle_bool_iff in Hle. congruence.
  - destruct (Qle_bool b a) eqn:E; [|reflexivity].
    apply Qle_bool_iff in E. exfalso. exact (Qlt_not_le _ _ H E).
Qed.

Lemma Qlt_bool_false (a b : Q) : Qlt_bool a b = false <-> (b <= a)%Q.
Proof.
  unfold Qlt_bool. rewrite negb_false_iff. apply Qle_bool_iff.
Qed.

Lemma Qle_bool_false (a b : Q) : Qle_bool a b = false <-> (b < a)%Q.
Proof.
  split; intro H.
  - apply Qnot_le_lt. intro Hle. apply Qle_bool_iff in Hle. congruence.
  - destruct (Qle_bool a b) eqn:E; [|reflexivity].
    apply Qle_bool_iff in E. exfalso. exact (Qlt_not_le _ _ H E).
Qed.

(** ** [sorted] returns an ascending permutation of its argument *)

Lemma insert_perm (x : Q) (l : list Q) : Permutation (insert x l) (x :: l).
Proof.
  induction l as [|y t IH]; simpl.
  - apply Permutation_refl.
  - destruct (Qlt_bool y x).
    + eapply perm_trans; [apply perm_skip, IH | apply perm_swap].
    + apply Permutation_refl.
Qed.

Lemma sorted_perm (l : list Q) : Permutation (sorted l) l.
Proof.
  induction l as [|x t IH]; simpl.
  - constructor.
  - eapply perm_trans; [apply insert_perm | apply perm_skip, IH].
Qed.

Lemma sorted_length (l : list Q) : length (sorted l) = length l.
Proof. apply Permutation_length, sorted_perm. Qed.

Lemma sorted_In (l : list Q) (x : Q) : In x (sorted l) -> In x l.
Proof. apply Permutation_in, sorted_perm. Qed.

Lemma insert_sorted (x : Q) (l : list Q) :
  StronglySorted Qle l -> StronglySorted Qle (insert x l).
Proof.
  induction 1 as [|y t Hs IH Hall]; simpl.
  - repeat constructor.
  - destruct (Qlt_bool y x) eqn:E.
    + constructor; [exact IH|].
      apply Qlt_bool_true in E.
      eapply Permutation_Forall; [apply Permutation_sym, insert_perm|].
      constructor; [apply Qlt_le_weak, E | exact Hall].
    + apply Qlt_bool_false in E.
      constructor; [constructor; assumption|].
      constructor; [exact E|].
      eapply Forall_impl; [|exact Hall].
      intros z Hz. eapply Qle_trans; eassumption.
Qed.

Lemma sorted_sorted (l : list Q) : StronglySorted Qle (sorted l).
Proof.
  induction l as [|x t IH]; simpl.
  - constructor.
  - apply insert_sorted, IH.
Qed.

Lemma StronglySorted_nth (s : list Q) :
  StronglySorted Qle s ->
  forall i j, i <= j -> j < length s -> (nth i s 0 <= nth j s 0)%Q.
Proof.
  induction 1 as [|x t Hs IH Hall]; intros i j Hij Hj; simpl in Hj.
  - lia.
  - destruct j as [|j].
    + assert (i = 0) by lia. subst i. apply Qle_refl.
    + destruct i as [|i]; simpl.
      * rewrite Forall_forall in Hall. apply Hall, nth_In. lia.
      * apply IH; lia.
Qed.

(** ** Float subtraction *)

Lemma fl_comp (x y : Q) : (x == y)%Q -> fl x = fl y.
Proof.
  intro H. unfold fl. rewrite (Qred_complete x y H). reflexivity.
Qed.

#[export] Instance fsub_comp : Proper (Qeq ==> Qeq ==> Qeq) fsub.
Proof.
  intros x x' Hx y y' Hy. unfold fsub.
  rewrite (fl_comp (x - y) (x' - y')); [reflexivity|].
  rewrite Hx, Hy. reflexivity.
Qed.

Lemma pow2_pos (e : Z) : (0 < 2 ^ e)%Q.
Proof. apply Qpower_0_lt. reflexivity. Qed.

Lemma rne_floor (q : Q) : (Qfloor q <= rne q)%Z.
Proof.
  unfold rne. destruct (q - inject_Z (Qfloor q) ?= 1 # 2)%Q; try lia.
  destruct (Z.even (Qfloor q)); lia.
Qed.

Lemma rne_nonneg (q : Q) : (0 <= q)%Q -> (0 <= rne q)%Z.
Proof.
  intro H. pose proof (rne_floor q).
  pose proof (Qfloor_resp_le 0 q H) as Hf.
  change (Qfloor 0) with 0%Z in Hf. lia.
Qed.

Lemma round_magnitude_nonneg (a : Q) :
  (0 <= a)%Q -> (0 <= round_magnitude a)%Q.
Proof.
  intro H. unfold round_magnitude, rounded.
  destruct (Qle_bool _ _); [apply Qlt_le_weak, pow2_pos|].
  apply Qmult_le_0_compat; [|apply Qlt_le_weak, pow2_pos].
  change 0%Q with (inject_Z 0). rewrite <- Zle_Qle. apply rne_nonneg.
  apply Qle_shift_div_l; [apply pow2_pos|]. rewrite Qmult_0_l. exact H.
Qed.

(** A float difference of a non-negative exact difference is not
    negative. *)
Lemma fl_nonneg (x : Q) : (0 <= x)%Q -> (0 <= fl x)%Q.
Proof.
  intro H. unfold fl.
  assert (Hq : (0 <= Qred x)%Q) by (rewrite Qred_correct; exact H).
  apply Qle_bool_iff in Hq. rewrite Hq.
  apply round_magnitude_nonneg. rewrite Qred_correct. exact H.
Qed.

(** *** Rounding to an integer *)

Lemma rne_upper (q : Q) : (rne q <= Qfloor q + 1)%Z.
Proof.
  unfold rne. destruct (q - inject_Z (Qfloor q) ?= 1 # 2)%Q; try lia.
  destruct (Z.even (Qfloor q)); lia.
Qed.

Lemma rne_mono (x y : Q) : (x <= y)%Q -> (rne x <= rne y)%Z.
Proof.
  intro H. pose proof (Qfloor_resp_le x y H) as Hf.
  pose proof (rne_upper x) as Hux. pose proof (rne_floor y) as Hly.
  destruct (Z.eq_dec (Qfloor x) (Qfloor y)) as [E | E]; [|lia].
  unfold rne. rewrite <- E.
  destruct (Qcompare_spec (x - inject_Z (Qfloor x)) (1 # 2)) as [Hx | Hx | Hx];
    destruct (Qcompare_spec (y - inject_Z (Qfloor x)) (1 # 2))
      as [Hy | Hy | Hy];
    try (destruct (Z.even (Qfloor x))); try lia; exfalso; lra.
Qed.

Lemma rne_ge_Z (n : Z) (x : Q) : (inject_Z n <= x)%Q -> (n <= rne x)%Z.
Proof.
  intro H. pose proof (Qfloor_resp_le _ _ H) as Hf.
  rewrite Qfloor_Z in Hf. pose proof (rne_floor x). lia.
Qed.

Lemma rne_le_Z (n : Z) (x : Q) : (x <= inject_Z n)%Q -> (rne x <= n)%Z.
Proof.
  intro H. pose proof (Qfloor_resp_le _ _ H) as Hf.
  rewrite Qfloor_Z in Hf. pose proof (rne_upper x) as Hu.
  destruct (Z.eq_dec (Qfloor x) n) as [E | E]; [|lia].
  unfold rne. pose proof (Qfloor_le x) as Hfl. rewrite E in *.
  destruct (Qcompare_spec (x - inject_Z n) (1 # 2)) as [Hx | Hx | Hx];
    try lia; exfalso; lra.
Qed.

(** *** Powers of two *)

Lemma pow2_add (a b : Z) : (2 ^ (a + b) == 2 ^ a * 2 ^ b)%Q.
Proof. apply Qpower_plus. discriminate. Qed.

Lemma pow2_le (a b : Z) : (a <= b)%Z -> (2 ^ a <= 2 ^ b)%Q.
Proof. intro H. apply Qpower_le_compat_l; [exact H | discriminate]. Qed.

Lemma pow2_Z (n : Z) : (0 <= n)%Z -> (inject_Z (2 ^ n) == 2 ^ n)%Q.
Proof. intro H. apply (Zpower_Qpower 2 n H). Qed.

(** [a * 2 ^ k < 2 ^ n] and [2 ^ n <= a * 2 ^ k], moved to [a]. *)
Lemma pow2_shift_lt (a : Q) (k n : Z) :
  (a * 2 ^ k < 2 ^ n)%Q -> (a < 2 ^ (n - k))%Q.
Proof.
  intro H. apply (Qmult_lt_r _ _ (2 ^ k)); [apply pow2_pos|].
  rewrite <- pow2_add. replace (n - k + k)%Z with n by lia. exact H.
Qed.

Lemma pow2_shift_le (a : Q) (k n : Z) :
  (2 ^ n <= a * 2 ^ k)%Q -> (2 ^ (n - k) <= a)%Q.
Proof.
  intro H. apply (Qmult_le_r _ _ (2 ^ k)); [apply pow2_pos|].
  rewrite <- pow2_add. replace (n - k + k)%Z with n by lia. exact H.
Qed.

(** *** The exponent *)

Lemma scaled_floor_nonneg (a : Q) (k : Z) :
  (0 <= a)%Q -> (0 <= Qfloor (a * 2 ^ k))%Z.
Proof.
  intro H. change 0%Z with (Qfloor 0). apply Qfloor_resp_le.
  apply Qmult_le_0_compat; [exact H | apply Qlt_le_weak, pow2_pos].
Qed.

Lemma exponent_mono (a b : Q) :
  (a <= b)%Q -> (exponent a <= exponent b)%Z.
Proof.
  intro H. unfold exponent.
  apply Z.max_le_compat_r. apply Z.sub_le_mono_r. apply Z.log2_le_mono.
  apply Qfloor_resp_le. apply Qmult_le_compat_r;
    [exact H | apply Qlt_le_weak, pow2_pos].
Qed.

Lemma exponent_upper (a : Q) :
  (0 <= a)%Q -> (a < 2 ^ (exponent a + 53))%Q.
Proof.
  intro H. unfold exponent.
  set (A := Qfloor (a * 2 ^ 1126)).
  assert (HA : (0 <= A)%Z) by (apply scaled_floor_nonneg, H).
  assert (Hlog : (A + 1 <= 2 ^ (Z.log2 A + 1))%Z).
  { destruct (Z.eq_dec A 0) as [-> | Hne]; [simpl; lia|].
    pose proof (Z.log2_spec A ltac:(lia)) as [_ Hs].
    replace (Z.succ (Z.log2 A)) with (Z.log2 A + 1)%Z in Hs by lia. lia. }
  assert (Hlt : (a * 2 ^ 1126 < 2 ^ (Z.log2 A + 1))%Q).
  { eapply Qlt_le_trans; [apply Qlt_floor|]. fold A.
    rewrite <- pow2_Z by (pose proof (Z.log2_nonneg A); lia).
    rewrite <- Zle_Qle. exact Hlog. }
  apply pow2_shift_lt in Hlt.
  eapply Qlt_le_trans; [exact Hlt|]. apply pow2_le. lia.
Qed.

Lemma exponent_lower (a : Q) :
  (0 <= a)%Q -> (-1074 < exponent a)%Z -> (2 ^ (exponent a + 52) <= a)%Q.
Proof.
  intros H He. unfold exponent in *.
  set (A := Qfloor (a * 2 ^ 1126)) in *.
  assert (HA : (0 <= A)%Z) by (apply scaled_floor_nonneg, H).
  assert (Hl : (104 < Z.log2 A)%Z) by lia.
  assert (Hpos : (0 < A)%Z).
  { destruct (Z.eq_dec A 0) as [E | E]; [|lia].
    rewrite E in Hl. simpl in Hl. lia. }
  pose proof (Z.log2_spec A Hpos) as [Hs _].
  assert (Hle : (2 ^ (Z.log2 A) <= a * 2 ^ 1126)%Q).
  { eapply Qle_trans; [|apply Qfloor_le]. fold A.
    rewrite <- pow2_Z by lia. rewrite <- Zle_Qle. exact Hs. }
  apply pow2_shift_le in Hle.
  eapply Qle_trans; [|exact Hle]. apply pow2_le. lia.
Qed.

(** *** Rounding a magnitude *)

Lemma rounded_upper (a : Q) :
  (0 <= a)%Q -> (rounded a <= 2 ^ (exponent a + 53))%Q.
Proof.
  intro H. unfold rounded. rewrite Z.add_comm, pow2_add.
  apply Qmult_le_compat_r; [|apply Qlt_le_weak, pow2_pos].
  rewrite <- (pow2_Z 53) by lia. rewrite <- Zle_Qle.
  apply rne_le_Z. rewrite (pow2_Z 53) by lia.
  apply Qle_shift_div_r; [apply pow2_pos|].
  rewrite <- pow2_add. rewrite Z.add_comm.
  apply Qlt_le_weak, exponent_upper, H.
Qed.

Lemma rounded_lower (a : Q) :
  (0 <= a)%Q -> (-1074 < exponent a)%Z ->
  (2 ^ (exponent a + 52) <= rounded a)%Q.
Proof.
  intros H He. unfold rounded. rewrite Z.add_comm, pow2_add.
  apply Qmult_le_compat_r; [|apply Qlt_le_weak, pow2_pos].
  rewrite <- (pow2_Z 52) by lia. rewrite <- Zle_Qle.
  apply rne_ge_Z. rewrite (pow2_Z 52) by lia.
  apply Qle_shift_div_l; [apply pow2_pos|].
  rewrite <- pow2_add. rewrite Z.add_comm.
  apply exponent_lower; assumption.
Qed.

Lemma rounded_mono (a b : Q) :
  (0 <= a)%Q -> (a <= b)%Q -> (rounded a <= rounded b)%Q.
Proof.
  intros Ha Hab.
  assert (Hb : (0 <= b)%Q) by (eapply Qle_trans; eassumption).
  pose proof (exponent_mono a b Hab) as He.
  destruct (Z.eq_dec (exponent a) (exponent b)) as [E | E].
  - unfold rounded. rewrite E.
    apply Qmult_le_compat_r; [|apply Qlt_le_weak, pow2_pos].
    rewrite <- Zle_Qle. apply rne_mono.
    apply Qmult_le_compat_r; [exact Hab|].
    apply Qlt_le_weak, Qinv_lt_0_compat, pow2_pos.
  - eapply Qle_trans; [apply rounded_upper, Ha|].
    eapply Qle_trans; [|apply rounded_lower; [exact Hb|]].
    + apply pow2_le. lia.
    + unfold exponent in *. lia.
Qed.

Lemma round_magnitude_mono (a b : Q) :
  (0 <= a)%Q -> (a <= b)%Q -> (round_magnitude a <= round_magnitude b)%Q.
Proof.
  intros Ha Hab. unfold round_magnitude.
  pose proof (rounded_mono a b Ha Hab) as Hr.
  destruct (Qle_bool (2 ^ 1024) (rounded a)) eqn:Ea,
           (Qle_bool (2 ^ 1024) (rounded b)) eqn:Eb.
  - apply Qle_refl.
  - apply Qle_bool_iff in Ea. apply Qle_bool_false in Eb.
    exfalso. apply (Qlt_irrefl (rounded b)).
    eapply Qlt_le_trans; [exact Eb|]. eapply Qle_trans; eassumption.
  - apply Qle_bool_false in Ea. apply Qlt_le_weak, Ea.
  - exact Hr.
Qed.

(** *** The rounding *)

Lemma fl_pos_case (x : Q) : (0 <= x)%Q -> fl x = round_magnitude (Qred x).
Proof.
  intro H. unfold fl.
  assert (Hq : (0 <= Qred x)%Q) by (rewrite Qred_correct; exact H).
  apply Qle_bool_iff in Hq. rewrite Hq. reflexivity.
Qed.

Lemma fl_neg_case (x : Q) :
  (x < 0)%Q -> fl x = (- round_magnitude (- Qred x))%Q.
Proof.
  intro H. unfold fl.
  assert (Hq : (Qred x < 0)%Q) by (rewrite Qred_correct; exact H).
  apply Qle_bool_false in Hq. rewrite Hq. reflexivity.
Qed.

Lemma round_magnitude_0 : (round_magnitude (Qred 0) == 0)%Q.
Proof. vm_compute. reflexivity. Qed.

(** Rounding is symmetric. *)
Lemma fl_opp (x : Q) : (fl (- x) == - fl x)%Q.
Proof.
  destruct (Qlt_le_dec 0 x) as [Hpos | Hle].
  - rewrite (fl_neg_case (- x)) by lra.
    rewrite (fl_pos_case x) by lra.
    rewrite Qred_opp.
    assert (E : (- - Qred x)%Q = Qred x).
    { destruct (Qred x) as [n d]. unfold Qopp. simpl.
      rewrite Z.opp_involutive. reflexivity. }
    rewrite E. reflexivity.
  - destruct (Qlt_le_dec x 0) as [Hneg | Hge].
    + rewrite (fl_pos_case (- x)) by lra.
      rewrite (fl_neg_case x) by exact Hneg.
      rewrite Qred_opp. rewrite Qopp_involutive. reflexivity.
    + assert (E0 : (x == 0)%Q) by lra.
      rewrite (fl_comp (- x) 0) by lra. rewrite (fl_comp x 0) by exact E0.
      rewrite (fl_pos_case 0) by lra. rewrite round_magnitude_0. reflexivity.
Qed.

(** Rounding is monotone. *)
Lemma fl_mono (x y : Q) : (x <= y)%Q -> (fl x <= fl y)%Q.
Proof.
  intro H.
  destruct (Qlt_le_dec x 0) as [Hx | Hx], (Qlt_le_dec y 0) as [Hy | Hy].
  - rewrite (fl_neg_case x Hx), (fl_neg_case y Hy).
    apply Qopp_le_compat. apply round_magnitude_mono.
    + rewrite Qred_correct. lra.
    + rewrite !Qred_correct. lra.
  - rewrite (fl_neg_case x Hx), (fl_pos_case y Hy).
    assert (Hnx : (0 <= - Qred x)%Q) by (rewrite Qred_correct; lra).
    assert (Hny : (0 <= Qred y)%Q) by (rewrite Qred_correct; exact Hy).
    pose proof (round_magnitude_nonneg _ Hnx) as H1.
    pose proof (round_magnitude_nonneg _ Hny) as H2.
    lra.
  - exfalso. lra.
  - rewrite (fl_pos_case x Hx), (fl_pos_case y Hy).
    apply round_magnitude_mono; rewrite ?Qred_correct; assumption.
Qed.

(** Comparisons of closed terms, by evaluation. *)
Ltac eval_le := apply Qle_bool_iff; vm_compute; reflexivity.

Ltac eval_not_le :=
  let H := fresh "H" in
  intro H; apply Qle_bool_iff in H; vm_compute in H; discriminate H.

Ltac eval_lt := apply Qle_bool_false; vm_compute; reflexivity.

Ltac eval_length := vm_compute; repeat constructor.

(** ** Slices and indexing *)

Lemma slice_window {A : Type} (l : list A) (i m : nat) :
  slice l i (i + m) = firstn m (skipn i l).
Proof. unfold slice. f_equal. lia. Qed.

Lemma slice_length {A : Type} (l : list A) (i m : nat) :
  i + m <= length l -> length (slice l i (i + m)) = m.
Proof.
  intro H. rewrite slice_window, length_firstn, length_skipn. lia.
Qed.

Lemma slice_nth_error {A : Type} (l : list A) (i m k : nat) :
  k < m -> nth_error (slice l i (i + m)) k = nth_error l (i + k).
Proof.
  intro H. rewrite slice_window, nth_error_firstn.
  destruct (Nat.ltb_spec k m); [|lia].
  apply nth_error_skipn.
Qed.

Lemma slice_In {A : Type} (l : list A) (i j : nat) (x : A) :
  In x (slice l i j) -> In x l.
Proof.
  unfold slice. intro H.
  rewrite <- (firstn_skipn i l). apply in_or_app. right.
  rewrite <- (firstn_skipn (j - i) (skipn i l)). apply in_or_app. left.
  exact H.
Qed.

Lemma py_index_nth (l : list Q) (i : nat) :
  i < length l -> py_index l i = Ok (nth i l 0%Q).
Proof.
  intro H. unfold py_index.
  rewrite (nth_error_nth' l 0%Q H). reflexivity.
Qed.

Lemma py_index_In {A : Type} (l : list A) (i : nat) (x : A) :
  py_index l i = Ok x -> In x l.
Proof.
  unfold py_index. destruct (nth_error l i) eqn:E; [|discriminate].
  intro H. injection H as <-. eapply nth_error_In, E.
Qed.

Lemma slice_py_index (l : list Q) (i m k : nat) :
  k < m -> i + m <= length l ->
  py_index (slice l i (i + m)) k = Ok (nth (i + k) l 0%Q).
Proof.
  intros Hk Hm. unfold py_index.
  rewrite slice_nth_error by exact Hk.
  rewrite (nth_error_nth' l 0%Q) by lia. reflexivity.
Qed.

(** ** [min] with a key and [max] *)

Lemma first_min_unique (key : Q -> Q) (l : list Q) (k k' : nat) (c c' : Q) :
  first_min key l k c -> first_min key l k' c' -> k = k' /\ c = c'.
Proof.
  intros (Hk & Hmin & Hfst) (Hk' & Hmin' & Hfst').
  assert (k = k') as ->.
  { destruct (Nat.lt_trichotomy k k') as [Hlt | [Heq | Hgt]]; [|exact Heq|].
    - exfalso. apply (Qlt_not_le _ _ (Hfst' _ _ Hlt Hk)).
      apply Hmin. eapply nth_error_In, Hk'.
    - exfalso. apply (Qlt_not_le _ _ (Hfst _ _ Hgt Hk')).
      apply Hmin'. eapply nth_error_In, Hk. }
  split; [reflexivity | congruence].
Qed.

Lemma first_min_step (key : Q -> Q) (pre : list Q) (k : nat) (acc y : Q) :
  first_min key pre k acc ->
  exists k', first_min key (pre ++ [y]) k' (min_step key acc y).
Proof.
  intros (Hk & Hmin & Hfst).
  assert (Hlen : k < length pre) by (apply nth_error_Some; congruence).
  unfold min_step. destruct (Qlt_bool (key y) (key acc)) eqn:E.
  - apply Qlt_bool_true in E. exists (length pre). repeat split.
    + rewrite nth_error_app2 by lia. rewrite Nat.sub_diag. reflexivity.
    + intros x Hx. apply in_app_or in Hx. destruct Hx as [Hx | [<- | []]].
      * apply Qlt_le_weak. eapply Qlt_le_trans; [exact E | apply Hmin, Hx].
      * apply Qle_refl.
    + intros j x Hj Hx. rewrite nth_error_app1 in Hx by exact Hj.
      eapply Qlt_le_trans; [exact E|]. apply Hmin. eapply nth_error_In, Hx.
  - apply Qlt_bool_false in E. exists k. repeat split.
    + rewrite nth_error_app1 by exact Hlen. exact Hk.
    + intros x Hx. apply in_app_or in Hx. destruct Hx as [Hx | [<- | []]].
      * apply Hmin, Hx.
      * exact E.
    + intros j x Hj Hx. rewrite nth_error_app1 in Hx by lia.
      eapply Hfst; eassumption.
Qed.

Lemma fold_min_first (key : Q -> Q) (t pre : list Q) (k : nat) (acc : Q) :
  first_min key pre k acc ->
  exists k', first_min key (pre ++ t) k' (fold_left (min_step key) t acc).
Proof.
  revert pre k acc. induction t as [|y t IH]; intros pre k acc H; simpl.
  - exists k. rewrite app_nil_r. exact H.
  - destruct (first_min_step key pre k acc y H) as [k1 H1].
    destruct (IH _ _ _ H1) as [k2 H2].
    exists k2. rewrite <- app_assoc in H2. exact H2.
Qed.

Lemma py_min_key_first (key : Q -> Q) (l : list Q) :
  l <> [] -> exists k c, py_min_key key l = Ok c /\ first_min key l k c.
Proof.
  destruct l as [|x t]; [congruence|]. intros _.
  assert (H0 : first_min key [x] 0 x).
  { repeat split.
    - intros y [<- | []]. apply Qle_refl.
    - intros j y Hj. lia. }
  destruct (fold_min_first key t [x] 0 x H0) as [k Hk].
  exists k, (fold_left (min_step key) t x). split; [reflexivity | exact Hk].
Qed.

Lemma fold_max_upper (t : list Q) (acc : Q) :
  (acc <= fold_left max_step t acc)%Q
  /\ (forall y, In y t -> (y <= fold_left max_step t acc)%Q)
  /\ (fold_left max_step t acc = acc \/ In (fold_left max_step t acc) t).
Proof.
  revert acc. induction t as [|y t IH]; intro acc; simpl.
  - split; [apply Qle_refl|]. split; [intros y []|left; reflexivity].
  - destruct (IH (max_step acc y)) as (Hacc & Hall & Hin).
    assert (Hstep : (acc <= max_step acc y)%Q /\ (y <= max_step acc y)%Q
                    /\ (max_step acc y = acc \/ max_step acc y = y)).
    { unfold max_step. destruct (Qlt_bool acc y) eqn:E.
      - apply Qlt_bool_true in E.
        split; [apply Qlt_le_weak, E|]. split; [apply Qle_refl | now right].
      - apply Qlt_bool_false in E.
        split; [apply Qle_refl|]. split; [exact E | now left]. }
    destruct Hstep as (Ha & Hy & Hor).
    split; [eapply Qle_trans; eassumption|]. split.
    + intros z [<- | Hz]; [eapply Qle_trans; eassumption | apply Hall, Hz].
    + destruct Hin as [Hin | Hin]; [|right; right; exact Hin].
      rewrite Hin. destruct Hor as [-> | ->]; [left | right; left]; reflexivity.
Qed.

Lemma py_max_upper (l : list Q) :
  l <> [] ->
  exists hi, py_max l = Ok hi /\ In hi l /\ forall y, In y l -> (y <= hi)%Q.
Proof.
  destruct l as [|x t]; [congruence|]. intros _.
  destruct (fold_max_upper t x) as (Hacc & Hall & Hin).
  exists (fold_left max_step t x). split; [reflexivity|]. split.
  - destruct Hin as [-> | Hin]; [left; reflexivity | right; exact Hin].
  - intros y [<- | Hy]; [exact Hacc | apply Hall, Hy].
Qed.

(** ** One window of the ascending list *)

Section Window.

Variable s : list Q.
Variables m i : nat.
Hypothesis s_sorted : StronglySorted Qle s.
Hypothesis m_pos : 1 <= m.
Hypothesis in_range : i + m <= length s.

Lemma window_elements (x : Q) :
  In x (slice s i (i + m)) <-> exists k, k < m /\ x = nth (i + k) s 0%Q.
Proof.
  split.
  - intro H. apply In_nth_error in H. destruct H as [k Hk].
    assert (Hlt : k < m).
    { rewrite <- (slice_length s i m in_range).
      apply nth_error_Some. congruence. }
    exists k. split; [exact Hlt|].
    rewrite slice_nth_error in Hk by exact Hlt.
    symmetry. apply nth_error_nth, Hk.
  - intros (k & Hk & ->).
    apply (nth_error_In _ k). rewrite slice_nth_error by exact Hk.
    apply nth_error_nth'. lia.
Qed.

Lemma window_nonempty : slice s i (i + m) <> [].
Proof.
  intro H. apply (f_equal (@length Q)) in H.
  rewrite slice_length in H by exact in_range. simpl in H. lia.
Qed.

Lemma window_max :
  exists hi, py_max (slice s i (i + m)) = Ok hi
             /\ (hi == nth (i + m - 1) s 0)%Q.
Proof.
  destruct (py_max_upper _ window_nonempty) as (hi & Hhi & Hin & Hup).
  exists hi. split; [exact Hhi|]. apply Qle_antisym.
  - apply window_elements in Hin. destruct Hin as (k & Hk & ->).
    apply StronglySorted_nth; [exact s_sorted | lia | lia].
  - apply Hup. apply window_elements. exists (m - 1).
    split; [lia | f_equal; lia].
Qed.

Lemma window_min :
  exists lo, py_min (slice s i (i + m)) = Ok lo /\ (lo == nth i s 0)%Q.
Proof.
  destruct (py_min_key_first (fun x => x) _ window_nonempty)
    as (k & lo & Hlo & Hk & Hmin & _).
  exists lo. split; [exact Hlo|]. apply Qle_antisym.
  - apply Hmin. apply window_elements. exists 0.
    split; [lia | f_equal; lia].
  - apply nth_error_In in Hk. apply window_elements in Hk.
    destruct Hk as (j & Hj & ->).
    apply StronglySorted_nth; [exact s_sorted | lia | lia].
Qed.

(** One turn of the loop: the test of the code is the test on the spread,
    and an accepted window returns its element at [i + m // 2]. *)
Lemma window_loop_cons (vt : Q) (rest : list nat) :
  window_loop s m vt (i :: rest) =
    if Qle_bool (window_spread s m i) vt
    then Ok (Some (Some (nth (i + m / 2) s 0%Q), "median"))
    else window_loop s m vt rest.
Proof.
  destruct window_max as (hi & Hhi & Ehi).
  destruct window_min as (lo & Hlo & Elo).
  cbn [window_loop]. rewrite Hhi, Hlo. cbn [bind].
  assert (E : Qle_bool (fsub hi lo) vt = Qle_bool (window_spread s m i) vt).
  { unfold window_spread. rewrite Ehi, Elo. reflexivity. }
  rewrite E. destruct (Qle_bool (window_spread s m i) vt); [|reflexivity].
  rewrite slice_py_index; [reflexivity | | exact in_range].
  apply Nat.div_lt; lia.
Qed.

End Window.

(** ** The scan over the offsets *)

Lemma window_loop_none (s : list Q) (m : nat) (vt : Q) (offsets : list nat) :
  StronglySorted Qle s -> 1 <= m ->
  (forall i, In i offsets -> i + m <= length s /\ ~ qualifies s m vt i) ->
  window_loop s m vt offsets = Ok None.
Proof.
  intros Hs Hm. induction offsets as [|i rest IH]; intro H; [reflexivity|].
  destruct (H i (or_introl eq_refl)) as [Hi Hq].
  rewrite window_loop_cons by assumption.
  destruct (Qle_bool (window_spread s m i) vt) eqn:E.
  - apply Qle_bool_iff in E. contradiction.
  - apply IH. intros j Hj. apply H. right. exact Hj.
Qed.

Lemma window_loop_first (s : list Q) (m : nat) (vt : Q) (len a i : nat) :
  StronglySorted Qle s -> 1 <= m ->
  a + len + m <= S (length s) ->
  a <= i < a + len ->
  qualifies s m vt i ->
  (forall j, a <= j < i -> ~ qualifies s m vt j) ->
  window_loop s m vt (seq a len) =
    Ok (Some (Some (nth (i + m / 2) s 0%Q), "median")).
Proof.
  intros Hs Hm. revert a.
  induction len as [|len IH]; intros a Hlen Hi Hq Hfirst; [lia|].
  cbn [seq]. rewrite window_loop_cons by (assumption || lia).
  destruct (Nat.eq_dec a i) as [-> | Hne].
  - apply Qle_bool_iff in Hq. rewrite Hq. reflexivity.
  - destruct (Qle_bool (window_spread s m a) vt) eqn:E.
    + apply Qle_bool_iff in E. exfalso. apply (Hfirst a); [lia | exact E].
    + apply IH; [lia | lia | exact Hq |].
      intros j Hj. apply Hfirst. lia.
Qed.

(** A value returned by the loop is an element of the list, classified
    ["median"]; the loop has no other way to return. *)
Lemma window_loop_returns (s : list Q) (m : nat) (vt : Q) (offsets : list nat)
    (v : option Q) (c : string) :
  window_loop s m vt offsets = Ok (Some (v, c)) ->
  exists x, v = Some x /\ In x s /\ c = "median".
Proof.
  induction offsets as [|i rest IH]; cbn [window_loop]; [discriminate|].
  destruct (py_max (slice s i (i + m))) as [hi|]; [cbn [bind]|discriminate].
  destruct (py_min (slice s i (i + m))) as [lo|]; [cbn [bind]|discriminate].
  destruct (Qle_bool (fsub hi lo) vt); [|exact IH].
  destruct (py_index (slice s i (i + m)) (m / 2)) as [x|] eqn:E;
    [cbn [bind]|discriminate].
  intro H. injection H as <- <-. exists x. repeat split.
  eapply slice_In, py_index_In, E.
Qed.

(** The loop raises nothing when every window lies inside the list. *)
Lemma window_loop_total (s : list Q) (m : nat) (vt : Q) (offsets : list nat) :
  1 <= m -> (forall i, In i offsets -> i + m <= length s) ->
  exists r, window_loop s m vt offsets = Ok r.
Proof.
  intros Hm. induction offsets as [|i rest IH]; intro H; cbn [window_loop].
  - eexists; reflexivity.
  - assert (Hi : i + m <= length s) by (apply H; left; reflexivity).
    destruct (py_max_upper _ (window_nonempty s m i Hm Hi)) as (hi & -> & _).
    destruct (py_min_key_first (fun x => x) _ (window_nonempty s m i Hm Hi))
      as (k & lo & Hlo & _).
    unfold py_min. rewrite Hlo. cbn [bind].
    destruct (Qle_bool (fsub hi lo) vt).
    + rewrite slice_py_index; [eexists; reflexivity | | exact Hi].
      apply Nat.div_lt; lia.
    + apply IH. intros j Hj. apply H. right. exact Hj.
Qed.

(** ** The window length *)

Lemma window_length_bounds (n : nat) :
  3 <= n -> 2 <= window_length n <= n.
Proof.
  intro H. unfold window_length. split.
  - change 2 with (4 / 2). apply Nat.Div0.div_le_mono. lia.
  - apply Nat.Div0.div_le_upper_bound. lia.
Qed.

Lemma offsets_in_range (n : nat) (i : nat) :
  3 <= n ->
  In i (seq 0 (n - window_length n + 1)) -> i + window_length n <= n.
Proof.
  intros Hn Hi. apply in_seq in Hi.
  pose proof (window_length_bounds n Hn). lia.
Qed.

(** ** The voter on at least three inputs *)

Lemma smoothing_voter_unfold (inputs : list Q) (prev_output : option Q)
    (vt st : Q) :
  3 <= length inputs ->
  smoothing_voter inputs prev_output vt st =
    (found <- window_loop (sorted inputs) (window_length (length inputs)) vt
                (seq 0 (length inputs - window_length (length inputs) + 1)) ;;
     match found with
     | Some r => Ok r
     | None =>
         match prev_output with
         | None =>
             v <- py_index (sorted inputs) (length inputs / 2) ;;
             Ok (Some v, "median")
         | Some p =>
             closest_input <- py_min_key (fdistance p) inputs ;;
             if Qle_bool (fdistance p closest_input) st
             then Ok (Some closest_input, "smoothed")
             else Ok (None, "none")
         end
     end).
Proof.
  intro H. unfold smoothing_voter.
  destruct (Nat.ltb_spec (length inputs) 3); [lia | reflexivity].
Qed.

Lemma scan_none (inputs : list Q) (vt : Q) :
  3 <= length inputs -> no_window inputs vt ->
  window_loop (sorted inputs) (window_length (length inputs)) vt
    (seq 0 (length inputs - window_length (length inputs) + 1)) = Ok None.
Proof.
  intros Hn Hno. pose proof (window_length_bounds _ Hn) as Hm.
  apply window_loop_none; [apply sorted_sorted | lia |].
  intros i Hi. rewrite sorted_length. split.
  - apply offsets_in_range; assumption.
  - apply Hno. apply in_seq in Hi. lia.
Qed.

Lemma scan_first (inputs : list Q) (vt : Q) (i : nat) :
  let n := length inputs in
  let m := window_length n in
  3 <= n -> i <= n - m ->
  qualifies (sorted inputs) m vt i ->
  (forall j, j < i -> ~ qualifies (sorted inputs) m vt j) ->
  window_loop (sorted inputs) m vt (seq 0 (n - m + 1)) =
    Ok (Some (Some (nth (i + m / 2) (sorted inputs) 0%Q), "median")).
Proof.
  intros n m Hn Hi Hq Hfirst.
  pose proof (window_length_bounds _ Hn) as Hm. fold n m in Hm.
  apply window_loop_first;
    [apply sorted_sorted | lia | | lia | exact Hq |].
  - rewrite sorted_length. fold n. lia.
  - intros j Hj. apply Hfirst. lia.
Qed.

(** The code accepts the window at a valid offset exactly when the window
    qualifies. *)
Lemma window_accept_iff (inputs : list Q) (vt : Q) (i : nat) :
  let n := length inputs in
  let m := window_length n in
  3 <= n -> i <= n - m ->
  (exists r, window_loop (sorted inputs) m vt [i] = Ok (Some r))
  <-> qualifies (sorted inputs) m vt i.
Proof.
  intros n m Hn Hi.
  pose proof (window_length_bounds _ Hn) as Hm. fold n m in Hm.
  rewrite window_loop_cons;
    [| apply sorted_sorted | lia | rewrite sorted_length; fold n; lia].
  unfold qualifies.
  destruct (Qle_bool (window_spread (sorted inputs) m i) vt) eqn:E.
  - apply Qle_bool_iff in E. split; [intros _; exact E | eexists; reflexivity].
  - apply Qle_bool_false in E. split.
    + intros [r Hr]. discriminate.
    + intro H. exfalso. exact (Qlt_not_le _ _ E H).
Qed.

(** On at least three inputs the voter raises nothing, and what it returns
    is an input with its classification, or [(None, "none")]. *)
Lemma smoothing_voter_ok (inputs : list Q)
    (prev_output : option Q) (voter_threshold smoothing_threshold : Q) :
  3 <= length inputs ->
  exists v c,
    smoothing_voter inputs prev_output voter_threshold smoothing_threshold
      = Ok (v, c)
    /\ match v with
       | Some x => In x inputs /\ (c = "median" \/ c = "smoothed")
       | None => c = "none"
       end.
Proof.
  intro Hn. rewrite smoothing_voter_unfold by exact Hn.
  pose proof (window_length_bounds _ Hn) as Hm.
  destruct (window_loop_total (sorted inputs) (window_length (length inputs))
              voter_threshold
              (seq 0 (length inputs - window_length (length inputs) + 1)))
    as [found Hfound]; [lia | |].
  { intros i Hi. rewrite sorted_length. apply offsets_in_range; assumption. }
  rewrite Hfound. cbn [bind]. destruct found as [[v c]|].
  - destruct (window_loop_returns _ _ _ _ _ _ Hfound) as (x & -> & Hx & ->).
    exists (Some x), "median". split; [reflexivity|].
    split; [apply sorted_In, Hx | left; reflexivity].
  - destruct prev_output as [p|].
    + destruct (py_min_key_first (fdistance p) inputs) as (k & c & Hc & Hk & _).
      { intro E. rewrite E in Hn. simpl in Hn. lia. }
      rewrite Hc. cbn [bind].
      destruct (Qle_bool (fdistance p c) smoothing_threshold).
      * exists (Some c), "smoothed". split; [reflexivity|].
        split; [eapply nth_error_In, Hk | right; reflexivity].
      * exists None, "none". split; reflexivity.
    + rewrite py_index_nth.
      * cbn [bind]. eexists _, _. split; [reflexivity|].
        split; [|left; reflexivity].
        apply sorted_In, nth_In. rewrite sorted_length.
        apply Nat.div_lt; lia.
      * rewrite sorted_length. apply Nat.div_lt; lia.
Qed.

(** ** Claims *)

(** C1.  On at least three inputs the voter returns a pair; a non-null value
    is an element of the input list and is classified ["median"] or
    ["smoothed"], and the null value is classified ["none"].  No threshold
    is constrained, so this holds for the non-negative ones. *)
Theorem smoothing_voter_returns_input (inputs : list Q)
    (prev_output : option Q) (voter_threshold smoothing_threshold : Q) :
  3 <= length inputs ->
  exists v c,
    smoothing_voter inputs prev_output voter_threshold smoothing_threshold
      = Ok (v, c)
    /\ match v with
       | Some x => In x inputs /\ (c = "median" \/ c = "smoothed")
       | None => c = "none"
       end.
Proof. apply smoothing_voter_ok. Qed.

(** With previous output 30 and smoothing threshold 20 the voter returns the
    input 10 of [100, 10, 50], classified ["smoothed"]. *)
Lemma smoothing_voter_returns_input_witness :
  exists v c,
    smoothing_voter [100; 10; 50]%Q (Some 30%Q) (1 # 2)%Q 20%Q = Ok (v, c)
    /\ match v with
       | Some x => In x [100; 10; 50]%Q /\ (c = "median" \/ c = "smoothed")
       | None => c = "none"
       end.
Proof.
  apply (smoothing_voter_returns_input [100; 10; 50]%Q (Some 30%Q)
           (1 # 2)%Q 20%Q).
  simpl. lia.
Defined.

(** C2.  The voter raises [InsufficientInputs] exactly when it is given
    fewer than three inputs, and returns a pair exactly when it is given at
    least three, whatever the thresholds and the previous output. *)
Theorem insufficient_inputs_iff (inputs : list Q) (prev_output : option Q)
    (voter_threshold smoothing_threshold : Q) :
  (smoothing_voter inputs prev_output voter_threshold smoothing_threshold
     = Raise InsufficientInputs
   <-> length inputs < 3)
  /\ ((exists v c,
         smoothing_voter inputs prev_output voter_threshold
           smoothing_threshold = Ok (v, c))
      <-> 3 <= length inputs).
Proof.
  destruct (Nat.lt_ge_cases (length inputs) 3) as [Hlt | Hge].
  - assert (E : smoothing_voter inputs prev_output voter_threshold
                  smoothing_threshold = Raise InsufficientInputs).
    { unfold smoothing_voter.
      destruct (Nat.ltb_spec (length inputs) 3); [reflexivity | lia]. }
    rewrite E. split; split; try tauto.
    + intros (v & c & H). discriminate.
    + lia.
  - destruct (smoothing_voter_ok inputs prev_output voter_threshold
                smoothing_threshold Hge) as (v & c & E & _).
    rewrite E. split; split; try lia.
    + discriminate.
    + intros _. exists v, c. reflexivity.
Qed.

(** ** Scenarios of the specification, evaluated *)

(** Scenario A: [10.0, 10.05, 10.1] with voter threshold 0.5. *)
Example scenario_A :
  smoothing_voter [10; 201 # 20; 101 # 10]%Q None (1 # 2)%Q 1%Q
    = Ok (Some (201 # 20)%Q, "median").
Proof. vm_compute. reflexivity. Qed.

(** Scenario B: [10.0, 10.05, 50.0] with voter threshold 0.5 and no previous
    output. *)
Example scenario_B :
  smoothing_voter [10; 201 # 20; 50]%Q None (1 # 2)%Q 1%Q
    = Ok (Some (201 # 20)%Q, "median").
Proof. vm_compute. reflexivity. Qed.

(** Scenario E: two inputs. *)
Example scenario_E :
  smoothing_voter [10; 201 # 20]%Q (Some 10%Q) (1 # 2)%Q 1%Q
    = Raise InsufficientInputs.
Proof. vm_compute. reflexivity. Qed.

(** The sort is stable: of two equal readings the one that came first in
    the input stays in front. *)
Example sorted_stable :
  sorted [3; 2 # 2; 1; 4 # 4]%Q = [2 # 2; 1; 4 # 4; 3]%Q.
Proof. vm_compute. reflexivity. Qed.

(** Rounding decides: [1.1 - 0.1] is [1.0] in floats, so the window
    [0.1, 1.1] is accepted with threshold 1 and the voter returns [1.1]. *)
Example rounding_accepts_window :
  (fsub (fl (11 # 10)) (fl (1 # 10)) == 1)%Q
  /\ (1 < fl (11 # 10) - fl (1 # 10))%Q
  /\ smoothing_voter example_tenths None 1%Q 0%Q
     = Ok (Some (fl (11 # 10)), "median").
Proof.
  split; [vm_compute; reflexivity|].
  split; [vm_compute; reflexivity | vm_compute; reflexivity].
Qed.

(** Rounding makes a tie: [1.1] and [-0.9] are both at float distance [1.0]
    from [0.1], and [min] keeps the first. *)
Example rounding_makes_tie :
  (fdistance (fl (1 # 10)) (fl (11 # 10)) == 1)%Q
  /\ (fdistance (fl (1 # 10)) (fl (-9 # 10)) == 1)%Q
  /\ smoothing_voter example_tie (Some (fl (1 # 10))) (1 # 2)%Q 1%Q
     = Ok (Some (fl (11 # 10)), "smoothed").
Proof.
  split; [vm_compute; reflexivity|].
  split; [vm_compute; reflexivity | vm_compute; reflexivity].
Qed.

(** [[-50.0, 0.1, 1.1]] with threshold 1 and no previous output: the window
    [0.1, 1.1] is accepted, the fallback is not reached. *)
Example rounding_before_fallback :
  smoothing_voter [-50; fl (1 # 10); fl (11 # 10)]%Q None 1%Q 0%Q
    = Ok (Some (fl (11 # 10)), "median").
Proof. vm_compute. reflexivity. Qed.

(** [[0.1, 1.1, 50.0]] with threshold 1 and previous output 50: the window
    [0.1, 1.1] is accepted although a previous output is present. *)
Example rounding_before_smoothing :
  smoothing_voter [fl (1 # 10); fl (11 # 10); 50]%Q (Some 50%Q) 1%Q 1%Q
    = Ok (Some (fl (11 # 10)), "median").
Proof. vm_compute. reflexivity. Qed.

(** The tie of [example_tie] is kept with smoothing threshold 2. *)
Example rounding_tie_wide :
  smoothing_voter example_tie (Some (fl (1 # 10))) (1 # 2)%Q 2%Q
    = Ok (Some (fl (11 # 10)), "smoothed").
Proof. vm_compute. reflexivity. Qed.

(** [[0.1, 1.1, 50.0, 50.5]] with threshold 1: the voter returns 1.1. *)
Example rounding_quad :
  smoothing_voter example_quad None 1%Q 0%Q
    = Ok (Some (fl (11 # 10)), "median").
Proof. vm_compute. reflexivity. Qed.

(** Literals: 0.1 and 1.1 as binary64 numbers. *)
Example float_literals :
  (fl (1 # 10) == 3602879701896397 # 36028797018963968)%Q
  /\ (fl (11 # 10) == 2476979795053773 # 2251799813685248)%Q.
Proof. split; vm_compute; reflexivity. Qed.



(** C4, as the specification states it, does not hold: for Scenario C the
    window at offset 0, [10.0, 10.05], has spread 0.05 <= 0.5, so a window
    does qualify and the result is not [(10.0, "smoothed")]. *)
Lemma scenario_C_not_smoothed :
  ~ no_window [10; 201 # 20; 50]%Q (1 # 2)%Q
  /\ smoothing_voter [10; 201 # 20; 50]%Q (Some (501 # 50)%Q)
       (1 # 2)%Q 1%Q <> Ok (Some 10%Q, "smoothed").
Proof.
  split.
  - intro H. apply (H 0); [eval_length|].
    unfold qualifies. eval_le.
  - vm_compute. discriminate.
Qed.

(** C4, amended.  For inputs [10.0, 10.05, 50.0], voter threshold 0.5,
    previous output 10.02 and smoothing threshold 1.0, the window at offset
    0 qualifies and the voter returns [(10.05, "median")]; the input
    closest to the previous output is 10.0, at distance 0.02 <= 1.0, and it
    is not consulted. *)
Theorem scenario_C :
  qualifies (sorted [10; 201 # 20; 50]%Q) 2 (1 # 2)%Q 0
  /\ first_min (distance (501 # 50)%Q) [10; 201 # 20; 50]%Q 0 10%Q
  /\ (distance (501 # 50) 10 == 1 # 50)%Q
  /\ smoothing_voter [10; 201 # 20; 50]%Q (Some (501 # 50)%Q) (1 # 2)%Q 1%Q
       = Ok (Some (201 # 20)%Q, "median").
Proof.
  split; [|split; [|split]].
  - unfold qualifies. eval_le.
  - repeat split.
    + intros x [<- | [<- | [<- | []]]]; unfold Qle; simpl; lia.
    + intros j x Hj. lia.
  - reflexivity.
  - vm_compute. reflexivity.
Qed.

(** C5, as the specification states it, does not hold: for four inputs the
    code uses windows of length 2, while [ceil((4+1)/2) = 3]. *)
Lemma window_length_not_ceiling :
  3 <= 4 /\ window_length 4 = 2 /\ spec_window_length 4 = 3
  /\ window_length 4 <> spec_window_length 4.
Proof.
  split; [lia|]. split; [reflexivity|]. split; [reflexivity|].
  vm_compute. discriminate.
Qed.

Lemma Qceiling_div2 (a : Z) :
  Qceiling (inject_Z a / 2) = (- ((- a) / 2))%Z.
Proof.
  unfold Qceiling. f_equal.
  rewrite (Zdiv_Qdiv (- a) 2).
  apply Qfloor_comp. rewrite inject_Z_opp. unfold Qdiv.
  change (inject_Z 2) with 2%Q. ring.
Qed.

(** C5, amended.  The window length of the code is [(n + 1) // 2], which is
    [floor((n+1)/2)] and [ceil(n/2)]; it is the specification's
    [ceil((n+1)/2)] for odd [n] and one less for even [n].  In particular
    it is 2, 3 and 4 for 3, 5 and 7 inputs. *)
Theorem window_length_floor (n : nat) :
  Z.of_nat (window_length n) = Qfloor (inject_Z (Z.of_nat n + 1) / 2)
  /\ Z.of_nat (window_length n) = Qceiling (inject_Z (Z.of_nat n) / 2)
  /\ spec_window_length n = window_length n + (if Nat.even n then 1 else 0)
  /\ window_length 3 = 2 /\ window_length 5 = 3 /\ window_length 7 = 4.
Proof.
  assert (Hw : Z.of_nat (window_length n) = ((Z.of_nat n + 1) / 2)%Z).
  { unfold window_length. rewrite Nat2Z.inj_div, Nat2Z.inj_add. reflexivity. }
  split; [|split; [|split]].
  - rewrite Hw. apply (Zdiv_Qdiv (Z.of_nat n + 1) 2).
  - rewrite Hw, Qceiling_div2.
    pose proof (Z.div_mod (Z.of_nat n + 1) 2).
    pose proof (Z.mod_pos_bound (Z.of_nat n + 1) 2).
    pose proof (Z.div_mod (- Z.of_nat n) 2).
    pose proof (Z.mod_pos_bound (- Z.of_nat n) 2).
    lia.
  - unfold spec_window_length. rewrite Qceiling_div2.
    apply Nat2Z.inj. rewrite Nat2Z.inj_add, Hw.
    pose proof (Z.div_mod (Z.of_nat n + 1) 2).
    pose proof (Z.mod_pos_bound (Z.of_nat n + 1) 2).
    pose proof (Z.div_mod (- (Z.of_nat n + 1)) 2).
    pose proof (Z.mod_pos_bound (- (Z.of_nat n + 1)) 2).
    destruct (Nat.even n) eqn:E.
    + apply Nat.even_spec in E. destruct E as [q ->]. lia.
    + assert (O : Nat.odd n = true) by (rewrite <- Nat.negb_even, E; reflexivity).
      apply Nat.odd_spec in O. destruct O as [q ->]. lia.
  - repeat split.
Qed.


(** No window of [100, 10, 50] has a spread within 1/2: ascending
    [10, 50, 100], [m = 2], spreads 40 and 50. *)
Lemma no_window_example : no_window [100; 10; 50]%Q (1 # 2)%Q.
Proof.
  intros i Hi. unfold qualifies.
  destruct i as [|[|i]]; [eval_not_le | eval_not_le |].
  vm_compute in Hi. lia.
Qed.



(** With previous output 30, the inputs 10 and 50 of [100, 10, 50] are both
    at distance 20; 10 comes first in the input order. *)
Lemma first_min_example : first_min (fdistance 30%Q) [100; 10; 50]%Q 1 10%Q.
Proof.
  repeat split.
  - intros x [<- | [<- | [<- | []]]]; eval_le.
  - intros j x Hj Hx. destruct j as [|j]; [|lia].
    injection Hx as <-. eval_lt.
Qed.

Lemma three_inputs_example : 3 <= length [100; 10; 50]%Q.
Proof. eval_length. Qed.

(** No window of [1.1, -0.9, 50.0] has a spread within 1/2. *)
Lemma no_window_tie : no_window example_tie (1 # 2)%Q.
Proof.
  intros i Hi. unfold qualifies.
  destruct i as [|[|i]]; [eval_not_le | eval_not_le |].
  vm_compute in Hi. lia.
Qed.

(** With previous output 0.1 the float distances of 1.1 and -0.9 are both
    1.0 (the exact distance of -0.9 is the smaller one); 1.1 comes first
    and is the first element of least distance. *)
Lemma first_min_tie :
  first_min (fdistance (fl (1 # 10))) example_tie 0 (fl (11 # 10)).
Proof.
  repeat split.
  - intros x [<- | [<- | [<- | []]]]; eval_le.
  - intros j x Hj. lia.
Qed.

Lemma three_inputs_tie : 3 <= length example_tie.
Proof. eval_length. Qed.


(** C9.  For at least three inputs, an offset [i] of a window and thresholds
    [t1 <= t2]: a window that qualifies under [t1] qualifies under [t2], and
    when the code accepts the window at offset [i] under [t1] it accepts it
    under [t2], with the same result. *)
Theorem voter_threshold_monotone (inputs : list Q) (i : nat) (t1 t2 : Q) :
  let n := length inputs in
  let m := window_length n in
  3 <= n -> i <= n - m -> (t1 <= t2)%Q ->
  (qualifies (sorted inputs) m t1 i -> qualifies (sorted inputs) m t2 i)
  /\ forall r,
       window_loop (sorted inputs) m t1 [i] = Ok (Some r) ->
       window_loop (sorted inputs) m t2 [i] = Ok (Some r).
Proof.
  intros n m Hn Hi Ht.
  assert (Hq : qualifies (sorted inputs) m t1 i ->
               qualifies (sorted inputs) m t2 i).
  { unfold qualifies. intro H. eapply Qle_trans; eassumption. }
  split; [exact Hq|]. intros r.
  pose proof (window_length_bounds _ Hn) as Hm. fold n m in Hm.
  rewrite !window_loop_cons;
    try (apply sorted_sorted || lia || (rewrite sorted_length; fold n; lia)).
  destruct (Qle_bool (window_spread (sorted inputs) m i) t1) eqn:E1.
  - apply Qle_bool_iff in E1. apply Hq in E1. apply Qle_bool_iff in E1.
    rewrite E1. trivial.
  - discriminate.
Qed.

Lemma voter_threshold_monotone_witness :
  qualifies (sorted [5; 1; 9; 2; 8]%Q) 3 10%Q 1
  /\ window_loop (sorted [5; 1; 9; 2; 8]%Q) 3 10%Q [1]
       = Ok (Some (Some 5%Q, "median")).
Proof.
  assert (Hn : 3 <= length [5; 1; 9; 2; 8]%Q) by eval_length.
  assert (Hi : 1 <= length [5; 1; 9; 2; 8]%Q
                    - window_length (length [5; 1; 9; 2; 8]%Q))
    by eval_length.
  assert (Ht : (6 <= 10)%Q) by (unfold Qle; simpl; lia).
  destruct (voter_threshold_monotone [5; 1; 9; 2; 8]%Q 1 6%Q 10%Q Hn Hi Ht)
    as [Hq Hr].
  split.
  - apply Hq. unfold qualifies. eval_le.
  - apply Hr. vm_compute. reflexivity.
Defined.

(** ** The update of the sensor group *)

Section PlatformProperties.

Variable states_get : string -> option State.
Variable float : string -> result Q.
Variable unit_convert :
  option string -> Q -> option string -> option string -> result Q.
Variable calculate_state_attributes : SensorGroup -> SensorGroup.

Abbreviation gather' := (gather states_get float unit_convert).
Abbreviation readings' :=
  (readings states_get float unit_convert calculate_state_attributes).
Abbreviation update :=
  (async_update_group_state states_get float unit_convert
     calculate_state_attributes).

(** [any_valid] is never reset by the gathering loop. *)
Lemma gather_keeps_valid (b : SensorGroup) (ids : list string) :
  forall vals av vals' av',
    gather' b ids vals av = Ok (vals', av') -> av = true -> av' = true.
Proof.
  induction ids as [|id rest IH]; intros vals av vals' av' H Ht;
    cbn [gather] in H.
  - injection H as <- <-. exact Ht.
  - destruct (states_get id) as [st|]; [|eapply IH; eassumption].
    destruct (read_state float unit_convert b st) as [x|[| | | |]];
      try discriminate; eapply IH; eauto.
Qed.

(** When [any_valid] is still unset no reading was appended. *)
Lemma gather_none_valid (b : SensorGroup) (ids : list string) :
  forall vals av vals',
    gather' b ids vals av = Ok (vals', false) -> vals' = vals.
Proof.
  induction ids as [|id rest IH]; intros vals av vals' H; cbn [gather] in H.
  - injection H as <- _. reflexivity.
  - destruct (states_get id) as [st|]; [|eapply IH; eassumption].
    destruct (read_state float unit_convert b st) as [x|[| | | |]];
      try discriminate; try (eapply IH; eassumption).
    pose proof (gather_keeps_valid _ _ _ _ _ _ H eq_refl). discriminate.
Qed.

Lemma update_paths (self : SmoothingVoterSensorGroup) :
  update_path states_get float unit_convert calculate_state_attributes
    self (update self).
Proof.
  unfold async_update_group_state.
  cbn [base set_base].
  destruct (gather' (calculate_state_attributes (base self))
              (_entity_ids (calculate_state_attributes (base self)))
              [] false) as [[sensor_values any_valid]|e] eqn:G.
  - cbn [set_attr_available _attr_available].
    destruct (Nat.leb_spec 3 (length sensor_values)) as [Hge | Hlt].
    + destruct any_valid.
      * cbn [andb negb set_attr_available set_base _prev_output
               _voter_threshold _smoothing_threshold].
        destruct (smoothing_voter_ok sensor_values (_prev_output self)
                    (_voter_threshold self) (_smoothing_threshold self) Hge)
          as (v & c & E & Hv).
        rewrite E.
        eapply (path_voted _ _ _ _ _ _ sensor_values true v c);
          try assumption; destruct v; reflexivity.
      * pose proof (gather_none_valid _ _ _ _ _ G) as ->.
        simpl in Hge. lia.
    + rewrite andb_false_r. cbn [negb].
      eapply (path_unavailable _ _ _ _ _ _ sensor_values any_valid);
        try reflexivity; assumption.
  - eapply (path_gather_raises _ _ _ _ _ _ e); try reflexivity. exact G.
Qed.

(** C8.  When at least three readings are gathered, the update calls the
    voter once, with these readings and the stored previous output; the
    voter returns a pair, which becomes the native value and the
    classification, and the stored previous output becomes the returned
    value when that value is not null and keeps its old value when it is
    null.  A classification ["none"] comes with a null value and an
    unchanged previous output.  The same holds of every call recorded in
    the trace, and an update that does not call the voter leaves the
    previous output unchanged too. *)
Theorem prev_output_update (self : SmoothingVoterSensorGroup) :
  let out := update self in
  (forall sensor_values any_valid,
      readings' self = Ok (sensor_values, any_valid) ->
      3 <= length sensor_values ->
      exists new_val calc_type,
        smoothing_voter sensor_values (_prev_output self)
          (_voter_threshold self) (_smoothing_threshold self)
          = Ok (new_val, calc_type)
        /\ trace out =
             [CallSmoothingVoter sensor_values (_prev_output self)
                (_voter_threshold self) (_smoothing_threshold self)]
        /\ raised out = None
        /\ _attr_native_value (after out) = new_val
        /\ _calculation_type (after out) = calc_type
        /\ _prev_output (after out) =
             match new_val with
             | Some x => Some x
             | None => _prev_output self
             end
        /\ (calc_type = "none" ->
            new_val = None
            /\ _prev_output (after out) = _prev_output self))
  /\ (forall inputs prev vt st,
        In (CallSmoothingVoter inputs prev vt st) (trace out) ->
        exists new_val calc_type,
          prev = _prev_output self
          /\ smoothing_voter inputs prev vt st = Ok (new_val, calc_type)
          /\ _attr_native_value (after out) = new_val
          /\ _calculation_type (after out) = calc_type
          /\ _prev_output (after out) =
               match new_val with
               | Some x => Some x
               | None => _prev_output self
               end
          /\ (calc_type = "none" ->
              new_val = None
              /\ _prev_output (after out) = _prev_output self))
  /\ (trace out = [] -> _prev_output (after out) = _prev_output self).
Proof.
  intro out. subst out.
  destruct (update_paths self)
    as [e G Ht Hr Hp
       | vals av G Hlt Ht Hr Ha Hv Hc Hp
       | vals av v c G Hge E Hvc Ht Hr Ha Hv Hc Hp].
  - rewrite Ht. split; [|split; [intros ? ? ? ? []|intros _; exact Hp]].
    intros vals av G'. congruence.
  - rewrite Ht. split; [|split; [intros ? ? ? ? []|intros _; exact Hp]].
    intros vals' av' G' Hge. exfalso.
    rewrite G in G'. injection G' as <- <-. lia.
  - assert (Hnone : c = "none" ->
                    v = None
                    /\ _prev_output (after (update self))
                       = _prev_output self).
    { intros ->. destruct v as [x|].
      - destruct Hvc as [_ [H | H]]; discriminate H.
      - split; [reflexivity | exact Hp]. }
    rewrite Ht. split; [|split; [|discriminate]].
    + intros vals' av' G' _. rewrite G in G'. injection G' as <- <-.
      exists v, c. repeat (split; [first [reflexivity | assumption]|]).
      exact Hnone.
    + intros inputs prev vt st [H | []]. injection H as <- <- <- <-.
      exists v, c. repeat (split; [first [reflexivity | assumption]|]).
      exact Hnone.
Qed.

(** C10.  When the cycle gathers fewer than three readings, the update
    returns without calling the voter: the native value is null, the
    classification is ["none"] and the previous output is unchanged.
    Every call of the voter made by the update has at least three inputs,
    and the [except ValueError] handler is never entered. *)
Theorem update_guard (self : SmoothingVoterSensorGroup) :
  let out := update self in
  (forall sensor_values any_valid,
      readings' self = Ok (sensor_values, any_valid) ->
      length sensor_values < 3 ->
      trace out = [] /\ raised out = None
      /\ _attr_native_value (after out) = None
      /\ _calculation_type (after out) = "none"
      /\ _prev_output (after out) = _prev_output self)
  /\ (forall inputs prev vt st,
        In (CallSmoothingVoter inputs prev vt st) (trace out) ->
        3 <= length inputs)
  /\ ~ In ExceptValueError (trace out).
Proof.
  intro out. subst out.
  destruct (update_paths self)
    as [e G Ht Hr Hp
       | vals av G Hlt Ht Hr Ha Hv Hc Hp
       | vals av v c G Hge E Hvc Ht Hr Ha Hv Hc Hp];
    rewrite Ht; (split; [|split]).
  - intros vals av G'. congruence.
  - intros ? ? ? ? [].
  - intros [].
  - intros vals' av' G' _. repeat split; assumption.
  - intros ? ? ? ? [].
  - intros [].
  - intros vals' av' G' Hlt. exfalso.
    rewrite G in G'. injection G' as <- <-. lia.
  - intros inputs prev vt st [H | []]. injection H as <- <- <- <-. exact Hge.
  - intros [H | []]. discriminate H.
Qed.

End PlatformProperties.

(** On the example installation, with readings 100, 10 and 50: a fresh
    sensor votes the fallback median 50 and stores it as previous output;
    the sensor with previous output 30 (Scenario D) gets [(None, "none")]
    and keeps 30. *)
Lemma prev_output_update_witness :
  (_attr_native_value
     (after (async_update_group_state (example_states "50") example_float
               example_convert (fun b => b) example_fresh)) = Some 50%Q
   /\ _calculation_type
        (after (async_update_group_state (example_states "50") example_float
                  example_convert (fun b => b) example_fresh)) = "median"
   /\ _prev_output
        (after (async_update_group_state (example_states "50") example_float
                  example_convert (fun b => b) example_fresh)) = Some 50%Q)
  /\ (_attr_native_value
        (after (async_update_group_state (example_states "50") example_float
                  example_convert (fun b => b) example_sensor)) = None
      /\ _calculation_type
           (after (async_update_group_state (example_states "50")
                     example_float example_convert (fun b => b)
                     example_sensor)) = "none"
      /\ _prev_output
           (after (async_update_group_state (example_states "50")
                     example_float example_convert (fun b => b)
                     example_sensor)) = Some 30%Q).
Proof.
  split.
  - destruct (prev_output_update (example_states "50") example_float
                example_convert (fun b => b) example_fresh) as [H _].
    destruct (H [100; 10; 50]%Q true)
      as (v & c & E & _ & _ & Hv & Hc & Hp & _).
    { vm_compute. reflexivity. }
    { eval_length. }
    vm_compute in E. injection E as <- <-.
    split; [exact Hv|]. split; [exact Hc | exact Hp].
  - destruct (prev_output_update (example_states "50") example_float
                example_convert (fun b => b) example_sensor) as [H _].
    destruct (H [100; 10; 50]%Q true)
      as (v & c & E & _ & _ & Hv & Hc & Hp & _).
    { vm_compute. reflexivity. }
    { eval_length. }
    vm_compute in E. injection E as <- <-.
    split; [exact Hv|]. split; [exact Hc | exact Hp].
Defined.

(** On the example installation with [sensor.c] unavailable only two
    readings are gathered and the voter is not called. *)
Lemma update_guard_witness :
  trace (async_update_group_state (example_states "unavailable")
           example_float example_convert (fun b => b) example_sensor) = []
  /\ _calculation_type
       (after (async_update_group_state (example_states "unavailable")
                 example_float example_convert (fun b => b) example_sensor))
     = "none"
  /\ _prev_output
       (after (async_update_group_state (example_states "unavailable")
                 example_float example_convert (fun b => b) example_sensor))
     = Some 30%Q.
Proof.
  destruct (update_guard (example_states "unavailable") example_float
              example_convert (fun b => b) example_sensor) as [H _].
  destruct (H [100; 10]%Q true) as (Ht & _ & _ & Hc & Hp).
  { vm_compute. reflexivity. }
  { eval_length. }
  split; [exact Ht|]. split; [exact Hc | exact Hp].
Defined.

(** * Further properties of the voter *)

Lemma qualifies_dec (s : list Q) (m : nat) (vt : Q) (i : nat) :
  {qualifies s m vt i} + {~ qualifies s m vt i}.
Proof.
  unfold qualifies. destruct (Qlt_le_dec vt (window_spread s m i)) as [H | H].
  - right. apply Qlt_not_le, H.
  - left. exact H.
Qed.

(** Below any bound either no window qualifies or there is a least offset
    whose window does. *)
Lemma least_qualifying (s : list Q) (m : nat) (vt : Q) (bound : nat) :
  (forall i, i < bound -> ~ qualifies s m vt i)
  \/ exists i, i < bound /\ qualifies s m vt i
               /\ forall j, j < i -> ~ qualifies s m vt j.
Proof.
  induction bound as [|bound IH].
  - left. intros i Hi. lia.
  - destruct IH as [Hnone | (i & Hi & Hq & Hfirst)].
    + destruct (qualifies_dec s m vt bound) as [Hq | Hq].
      * right. exists bound. split; [lia|]. split; [exact Hq|].
        intros j Hj. apply Hnone, Hj.
      * left. intros i Hi. destruct (Nat.eq_dec i bound) as [-> | Hne].
        -- exact Hq.
        -- apply Hnone. lia.
    + right. exists i. split; [lia|]. split; assumption.
Qed.

Lemma voter_cases (inputs : list Q) (prev_output : option Q) (vt st : Q) :
  3 <= length inputs ->
  voter_case inputs prev_output vt st
    (smoothing_voter inputs prev_output vt st).
Proof.
  intro Hn. rewrite smoothing_voter_unfold by exact Hn.
  set (n := length inputs). set (m := window_length n).
  destruct (least_qualifying (sorted inputs) m vt (n - m + 1))
    as [Hnone | (i & Hi & Hq & Hfirst)].
  - assert (Hno : no_window inputs vt).
    { intros i Hi. apply Hnone. fold n m in Hi. lia. }
    subst n m. rewrite scan_none by assumption. cbn [bind].
    destruct prev_output as [p|].
    + destruct (py_min_key_first (fdistance p) inputs) as (k & c & Hc & Hk).
      { intro E. rewrite E in Hn. simpl in Hn. lia. }
      rewrite Hc. cbn [bind].
      destruct (Qle_bool (fdistance p c) st) eqn:E.
      * apply Qle_bool_iff in E. eapply case_smoothed; eauto.
      * apply Qle_bool_false in E. eapply case_none; eauto.
    + rewrite py_index_nth.
      * cbn [bind]. apply case_fallback; [exact Hno | reflexivity].
      * rewrite sorted_length. apply Nat.div_lt; lia.
  - assert (Hi' : i <= n - m) by lia.
    pose proof (scan_first inputs vt i Hn Hi' Hq Hfirst) as E.
    subst n m. cbv zeta in E. rewrite E. cbn [bind].
    apply case_window; assumption.
Qed.

Lemma voter_raises_below_three (inputs : list Q) (prev_output : option Q)
    (vt st : Q) :
  length inputs < 3 ->
  smoothing_voter inputs prev_output vt st = Raise InsufficientInputs.
Proof.
  intro H. unfold smoothing_voter.
  destruct (Nat.ltb_spec (length inputs) 3); [reflexivity | lia].
Qed.

Lemma voter_ok_three (inputs : list Q) (prev_output : option Q) (vt st : Q)
    (r : option Q * string) :
  smoothing_voter inputs prev_output vt st = Ok r -> 3 <= length inputs.
Proof.
  intro H. destruct (Nat.lt_ge_cases (length inputs) 3) as [Hlt | Hge];
    [|exact Hge].
  rewrite voter_raises_below_three in H by exact Hlt. discriminate.
Qed.

Lemma window_contradiction (inputs : list Q) (vt : Q) (i : nat) :
  no_window inputs vt ->
  i <= length inputs - window_length (length inputs) ->
  qualifies (sorted inputs) (window_length (length inputs)) vt i -> False.
Proof. intros Hno Hi Hq. exact (Hno i Hi Hq). Qed.

(** X1.  The voter answers [(None, "none")] exactly when it has at least
    three inputs, no window qualifies, a previous output is present and
    every input is farther from it than the smoothing threshold; spreads
    and distances are those of the float subtraction. *)
Theorem voter_none_iff (inputs : list Q) (prev_output : option Q)
    (voter_threshold smoothing_threshold : Q) :
  smoothing_voter inputs prev_output voter_threshold smoothing_threshold
    = Ok (None, "none")
  <-> 3 <= length inputs
      /\ no_window inputs voter_threshold
      /\ exists p, prev_output = Some p
                   /\ forall x, In x inputs ->
                                (smoothing_threshold < fdistance p x)%Q.
Proof.
  split.
  - intro H. pose proof (voter_ok_three _ _ _ _ _ H) as Hn.
    pose proof (voter_cases inputs prev_output voter_threshold
                  smoothing_threshold Hn) as Hc.
    rewrite H in Hc. inversion Hc as [| | |p k c Hno Hp Hk Hd]; subst.
    split; [exact Hn|]. split; [exact Hno|].
    exists p. split; [reflexivity|].
    intros x Hx. destruct Hk as (_ & Hmin & _).
    eapply Qlt_le_trans; [exact Hd | apply Hmin, Hx].
  - intros (Hn & Hno & p & Hp & Hfar).
    destruct (voter_cases inputs prev_output voter_threshold
                smoothing_threshold Hn)
      as [i Hi Hq _ | _ Hp' | p' k c _ Hp' Hk Hd | p' k c _ Hp' Hk Hd].
    + exfalso. eapply window_contradiction; eassumption.
    + congruence.
    + exfalso. assert (p' = p) as -> by congruence.
      destruct Hk as (Hk & _). apply nth_error_In in Hk.
      exact (Qlt_not_le _ _ (Hfar c Hk) Hd).
    + reflexivity.
Qed.

(** X2.  The voter answers [(v, "smoothed")] exactly when it has at least
    three inputs, no window qualifies, a previous output is present, [v] is
    the first input of least float distance [abs(x - p)] to it, and that
    distance is within the smoothing threshold. *)
Theorem voter_smoothed_iff (inputs : list Q) (prev_output : option Q)
    (voter_threshold smoothing_threshold : Q) (v : Q) :
  smoothing_voter inputs prev_output voter_threshold smoothing_threshold
    = Ok (Some v, "smoothed")
  <-> 3 <= length inputs
      /\ no_window inputs voter_threshold
      /\ exists p k, prev_output = Some p
                     /\ first_min (fdistance p) inputs k v
                     /\ (fdistance p v <= smoothing_threshold)%Q.
Proof.
  split.
  - intro H. pose proof (voter_ok_three _ _ _ _ _ H) as Hn.
    pose proof (voter_cases inputs prev_output voter_threshold
                  smoothing_threshold Hn) as Hc.
    rewrite H in Hc. inversion Hc as [| |p k c Hno Hp Hk Hd|]; subst.
    split; [exact Hn|]. split; [exact Hno|].
    exists p, k. repeat split; try assumption; apply Hk.
  - intros (Hn & Hno & p & k & Hp & Hv & Hd).
    destruct (voter_cases inputs prev_output voter_threshold
                smoothing_threshold Hn)
      as [i Hi Hq _ | _ Hp' | p' k' c _ Hp' Hk Hd' | p' k' c _ Hp' Hk Hd'].
    + exfalso. eapply window_contradiction; eassumption.
    + congruence.
    + assert (p' = p) as -> by congruence.
      destruct (first_min_unique _ _ _ _ _ _ Hk Hv) as [_ ->]. reflexivity.
    + exfalso. assert (p' = p) as -> by congruence.
      destruct (first_min_unique _ _ _ _ _ _ Hk Hv) as [_ ->].
      exact (Qlt_not_le _ _ Hd' Hd).
Qed.

(** X3.  The voter answers with classification ["median"] exactly when it
    has at least three inputs and either some window qualifies (by its
    float spread) or there is no previous output: the classification alone
    does not tell an agreeing window from the plain fallback median. *)
Theorem voter_median_iff (inputs : list Q) (prev_output : option Q)
    (voter_threshold smoothing_threshold : Q) :
  (exists v,
      smoothing_voter inputs prev_output voter_threshold smoothing_threshold
        = Ok (Some v, "median"))
  <-> 3 <= length inputs
      /\ (prev_output = None \/ ~ no_window inputs voter_threshold).
Proof.
  split.
  - intros [v H]. pose proof (voter_ok_three _ _ _ _ _ H) as Hn.
    split; [exact Hn|].
    pose proof (voter_cases inputs prev_output voter_threshold
                  smoothing_threshold Hn) as Hc.
    rewrite H in Hc. inversion Hc as [i Hi Hq Hf | Hno Hp | |]; subst.
    + right. intro Hno. eapply window_contradiction; eassumption.
    + left. reflexivity.
  - intros (Hn & Hor).
    destruct (voter_cases inputs prev_output voter_threshold
                smoothing_threshold Hn)
      as [i Hi Hq _ | _ Hp' | p' k' c Hno Hp' Hk Hd' | p' k' c Hno Hp' Hk Hd'].
    + eexists; reflexivity.
    + eexists; reflexivity.
    + exfalso. destruct Hor as [Hp | Hw]; [congruence | exact (Hw Hno)].
    + exfalso. destruct Hor as [Hp | Hw]; [congruence | exact (Hw Hno)].
Qed.

Lemma filter_perm {A : Type} (f : A -> bool) (l l' : list A) :
  Permutation l l' -> Permutation (filter f l) (filter f l').
Proof.
  induction 1 as [|x l l' _ IH|x y l|l1 l2 l3 _ IH1 _ IH2]; simpl.
  - constructor.
  - destruct (f x); [apply perm_skip|]; exact IH.
  - destruct (f x), (f y);
      try apply perm_swap; apply Permutation_refl.
  - eapply perm_trans; eassumption.
Qed.

Lemma slice_split {A : Type} (l : list A) (i m : nat) :
  l = (firstn i l ++ slice l i (i + m) ++ skipn m (skipn i l))%list.
Proof.
  rewrite slice_window, firstn_skipn, firstn_skipn. reflexivity.
Qed.

(** Two elements between the ends of a window are no farther apart than
    the spread of the window, in float arithmetic as in exact arithmetic:
    rounding is monotone and symmetric. *)
Lemma within_spread (lo hi x v vt : Q) :
  (lo <= x)%Q -> (x <= hi)%Q -> (lo <= v)%Q -> (v <= hi)%Q ->
  (fsub hi lo <= vt)%Q -> (fdistance v x <= vt)%Q.
Proof.
  intros Hlx Hxh Hlv Hvh Hs. unfold fdistance, fsub in *.
  apply Qabs_Qle_condition. split.
  - rewrite (fl_comp (x - v) (- (v - x))) by ring. rewrite fl_opp.
    apply Qopp_le_compat.
    eapply Qle_trans; [apply (fl_mono (v - x) (hi - lo)); lra | exact Hs].
  - eapply Qle_trans; [apply (fl_mono (x - v) (hi - lo)); lra | exact Hs].
Qed.

Lemma window_agrees (s : list Q) (m i : nat) (vt : Q) :
  StronglySorted Qle s -> 1 <= m -> i + m <= length s ->
  qualifies s m vt i ->
  forallb (fun x => Qle_bool (fdistance (nth (i + m / 2) s 0%Q) x) vt)
    (slice s i (i + m)) = true.
Proof.
  intros Hs Hm Hi Hq. apply forallb_forall. intros x Hx.
  apply (window_elements s m i Hm Hi) in Hx. destruct Hx as (k & Hk & ->).
  apply Qle_bool_iff.
  assert (Hhalf : m / 2 < m) by (apply Nat.div_lt; lia).
  apply (within_spread (nth i s 0%Q) (nth (i + m - 1) s 0%Q));
    try (apply StronglySorted_nth; [exact Hs | lia | lia]).
  exact Hq.
Qed.

Lemma spread_nonneg (s : list Q) (m i : nat) :
  StronglySorted Qle s -> 1 <= m -> i + m <= length s ->
  (0 <= window_spread s m i)%Q.
Proof.
  intros Hs Hm Hi. unfold window_spread, fsub. apply fl_nonneg.
  assert (nth i s 0 <= nth (i + m - 1) s 0)%Q
    by (apply StronglySorted_nth; [exact Hs | lia | lia]).
  lra.
Qed.

Lemma negative_threshold_no_window (inputs : list Q) (vt : Q) :
  3 <= length inputs -> (vt < 0)%Q -> no_window inputs vt.
Proof.
  intros Hn Hvt i Hi Hq.
  pose proof (window_length_bounds _ Hn) as Hm.
  assert (0 <= window_spread (sorted inputs)
                 (window_length (length inputs)) i)%Q.
  { apply spread_nonneg; [apply sorted_sorted | lia |].
    rewrite sorted_length. lia. }
  unfold qualifies in Hq. lra.
Qed.

(** X4.  When some window qualifies, the value the voter returns has a
    majority-sized group of inputs around it: at least [(n + 1) // 2] of
    the inputs lie within the voter threshold of the returned value, the
    distance being the float distance [abs(x - v)]. *)
Theorem median_has_agreeing_majority (inputs : list Q)
    (prev_output : option Q) (voter_threshold smoothing_threshold : Q) :
  3 <= length inputs ->
  ~ no_window inputs voter_threshold ->
  exists v,
    smoothing_voter inputs prev_output voter_threshold smoothing_threshold
      = Ok (Some v, "median")
    /\ window_length (length inputs)
       <= length (agreeing v voter_threshold inputs).
Proof.
  intros Hn Hw.
  pose proof (window_length_bounds _ Hn) as Hm.
  destruct (voter_cases inputs prev_output voter_threshold
              smoothing_threshold Hn)
    as [i Hi Hq _ | Hno _ | p k c Hno _ _ _ | p k c Hno _ _ _];
    try (exfalso; exact (Hw Hno)).
  eexists. split; [reflexivity|].
  set (m := window_length (length inputs)) in *.
  set (v := nth (i + m / 2) (sorted inputs) 0%Q).
  assert (Hi' : i + m <= length (sorted inputs))
    by (rewrite sorted_length; lia).
  unfold agreeing.
  rewrite <- (Permutation_length
                (filter_perm (fun x => Qle_bool (fdistance v x) voter_threshold)
                   _ _ (sorted_perm inputs))).
  rewrite (slice_split (sorted inputs) i m) at 1.
  rewrite !filter_app, !length_app.
  assert (Hm1 : 1 <= m) by lia. subst v.
  rewrite (forallb_filter_id _ _
             (window_agrees (sorted inputs) m i voter_threshold
                (sorted_sorted inputs) Hm1 Hi' Hq)).
  rewrite slice_length by exact Hi'. lia.
Qed.

(** Of [0.1, 1.1, 50.0, 50.5] with threshold 1 the window [0.1, 1.1] is
    accepted, its float spread being exactly 1.0; the voter returns 1.1,
    and 0.1 and 1.1 are within float distance 1 of it. *)
Lemma median_has_agreeing_majority_witness :
  exists v,
    smoothing_voter example_quad (Some 7%Q) 1%Q 0%Q = Ok (Some v, "median")
    /\ 2 <= length (agreeing v 1%Q example_quad).
Proof.
  apply (median_has_agreeing_majority example_quad (Some 7%Q) 1%Q 0%Q).
  - eval_length.
  - intro H. apply (H 0); [eval_length|].
    unfold qualifies. eval_le.
Defined.

(** X5.  Negative thresholds switch the corresponding step off.  With a
    negative voter threshold no window qualifies: without a previous
    output the voter returns the plain [sorted[n // 2]], and with a
    previous output and a negative smoothing threshold as well it returns
    [(None, "none")], whatever the inputs. *)
Theorem negative_thresholds (inputs : list Q)
    (voter_threshold smoothing_threshold : Q) :
  3 <= length inputs ->
  (voter_threshold < 0)%Q ->
  smoothing_voter inputs None voter_threshold smoothing_threshold
    = Ok (Some (nth (length inputs / 2) (sorted inputs) 0%Q), "median")
  /\ forall p,
       (smoothing_threshold < 0)%Q ->
       smoothing_voter inputs (Some p) voter_threshold smoothing_threshold
         = Ok (None, "none").
Proof.
  intros Hn Hvt.
  pose proof (negative_threshold_no_window inputs voter_threshold Hn Hvt)
    as Hno.
  split.
  - destruct (voter_cases inputs None voter_threshold smoothing_threshold Hn)
      as [i Hi Hq _ | _ _ | p k c _ Hp _ _ | p k c _ Hp _ _];
      try discriminate; [|reflexivity].
    exfalso. eapply window_contradiction; eassumption.
  - intros p Hst.
    destruct (voter_cases inputs (Some p) voter_threshold
                smoothing_threshold Hn)
      as [i Hi Hq _ | _ Hp | p' k c _ Hp Hk Hd | p' k c _ Hp _ _];
      try discriminate; [| |reflexivity].
    + exfalso. eapply window_contradiction; eassumption.
    + exfalso. pose proof (Qabs_nonneg (fsub c p')) as Hpos.
      unfold fdistance in Hd. lra.
Qed.

Lemma negative_thresholds_witness :
  smoothing_voter [10; 10; 10]%Q None (- (1))%Q (- (1))%Q
    = Ok (Some 10%Q, "median")
  /\ smoothing_voter [10; 10; 10]%Q (Some 10%Q) (- (1))%Q (- (1))%Q
     = Ok (None, "none").
Proof.
  assert (Hn : 3 <= length [10; 10; 10]%Q) by eval_length.
  assert (Hvt : (- (1) < 0)%Q) by (unfold Qlt; simpl; lia).
  destruct (negative_thresholds [10; 10; 10]%Q (- (1))%Q (- (1))%Q Hn Hvt)
    as [H1 H2].
  split; [exact H1 | exact (H2 10%Q Hvt)].
Defined.

(** ** The order of the inputs *)

Lemma Qlt_bool_comp (a a' b b' : Q) :
  (a == a')%Q -> (b == b')%Q -> Qlt_bool a b = Qlt_bool a' b'.
Proof.
  intros Ha Hb. unfold Qlt_bool. f_equal. apply Qleb_comp; assumption.
Qed.

Lemma Forall2_Qeq_refl (l : list Q) : Forall2 Qeq l l.
Proof. induction l; constructor; [reflexivity | assumption]. Qed.

Lemma Forall2_Qeq_trans (l1 l2 l3 : list Q) :
  Forall2 Qeq l1 l2 -> Forall2 Qeq l2 l3 -> Forall2 Qeq l1 l3.
Proof.
  intro H. revert l3. induction H as [|x y l1 l2 Hxy _ IH]; intros l3 H3.
  - exact H3.
  - inversion H3 as [|y' z l2' l3' Hyz H3']; subst.
    constructor; [eapply Qeq_trans; eassumption | apply IH, H3'].
Qed.

Lemma Forall2_Qeq_nth (l l' : list Q) (i : nat) :
  Forall2 Qeq l l' -> (nth i l 0 == nth i l' 0)%Q.
Proof.
  intro H. revert i. induction H as [|x y l l' Hxy _ IH]; intro i.
  - destruct i; reflexivity.
  - destruct i as [|i]; [exact Hxy | apply IH].
Qed.

Lemma insert_Qeq (x : Q) (s s' : list Q) :
  Forall2 Qeq s s' -> Forall2 Qeq (insert x s) (insert x s').
Proof.
  induction 1 as [|y y' s s' Hy Hs IH]; simpl.
  - apply Forall2_Qeq_refl.
  - rewrite (Qlt_bool_comp y y' x x Hy (Qeq_refl x)).
    destruct (Qlt_bool y' x).
    + constructor; assumption.
    + constructor; [reflexivity|]. constructor; assumption.
Qed.

(** Inserting two readings in either order gives the same list, up to the
    order of equal readings. *)
Lemma insert_swap (x y : Q) (s : list Q) :
  Forall2 Qeq (insert x (insert y s)) (insert y (insert x s)).
Proof.
  assert (Hnot : Qlt_bool y x = true -> Qlt_bool x y = true -> False).
  { intros Eyx Exy. apply Qlt_bool_true in Eyx, Exy.
    exact (Qlt_irrefl _ (Qlt_trans _ _ _ Eyx Exy)). }
  assert (Heq : Qlt_bool y x = false -> Qlt_bool x y = false ->
                forall t, Forall2 Qeq (x :: y :: t) (y :: x :: t)).
  { intros Eyx Exy t. apply Qlt_bool_false in Eyx, Exy.
    pose proof (Qle_antisym _ _ Eyx Exy) as E.
    constructor; [exact E|]. constructor; [symmetry; exact E|].
    apply Forall2_Qeq_refl. }
  induction s as [|z t IH]; cbn [insert].
  - destruct (Qlt_bool y x) eqn:Eyx, (Qlt_bool x y) eqn:Exy;
      try apply Forall2_Qeq_refl; [exfalso; auto | auto].
  - destruct (Qlt_bool z y) eqn:Ezy, (Qlt_bool z x) eqn:Ezx;
      cbn [insert]; rewrite ?Ezy, ?Ezx.
    + constructor; [reflexivity | exact IH].
    + assert (Exy : Qlt_bool x y = true).
      { apply Qlt_bool_true. apply Qlt_bool_true in Ezy.
        apply Qlt_bool_false in Ezx. eapply Qle_lt_trans; eassumption. }
      rewrite Exy. cbn [insert]. rewrite ?Ezy. apply Forall2_Qeq_refl.
    + assert (Eyx : Qlt_bool y x = true).
      { apply Qlt_bool_true. apply Qlt_bool_true in Ezx.
        apply Qlt_bool_false in Ezy. eapply Qle_lt_trans; eassumption. }
      rewrite Eyx. cbn [insert]. rewrite ?Ezx. apply Forall2_Qeq_refl.
    + destruct (Qlt_bool y x) eqn:Eyx, (Qlt_bool x y) eqn:Exy;
        cbn [insert]; rewrite ?Ezy, ?Ezx;
        try apply Forall2_Qeq_refl; [exfalso; auto | auto].
Qed.

(** [sorted] of a rearranged list is the same list up to [==]. *)
Lemma sorted_perm_Qeq (l l' : list Q) :
  Permutation l l' -> Forall2 Qeq (sorted l) (sorted l').
Proof.
  induction 1 as [|x l l' _ IH|x y l|l1 l2 l3 _ IH1 _ IH2]; simpl.
  - constructor.
  - apply insert_Qeq, IH.
  - apply insert_swap.
  - eapply Forall2_Qeq_trans; eassumption.
Qed.

Lemma qualifies_perm (l l' : list Q) (m : nat) (vt : Q) (i : nat) :
  Permutation l l' ->
  qualifies (sorted l) m vt i -> qualifies (sorted l') m vt i.
Proof.
  intros Hp. unfold qualifies, window_spread.
  pose proof (sorted_perm_Qeq l l' Hp) as Hs.
  rewrite (Forall2_Qeq_nth _ _ (i + m - 1) Hs), (Forall2_Qeq_nth _ _ i Hs).
  trivial.
Qed.

Lemma no_window_perm (l l' : list Q) (vt : Q) :
  Permutation l l' -> no_window l vt -> no_window l' vt.
Proof.
  intros Hp Hno i Hi Hq. unfold no_window in Hno.
  rewrite <- (Permutation_length Hp) in Hi, Hq.
  apply (Hno i Hi). eapply qualifies_perm; [|exact Hq].
  apply Permutation_sym, Hp.
Qed.

(** The first elements of least key of two rearrangements have equal keys. *)
Lemma first_min_perm (key : Q -> Q) (l l' : list Q) (k k' : nat) (c c' : Q) :
  Permutation l l' ->
  first_min key l k c -> first_min key l' k' c' -> (key c == key c')%Q.
Proof.
  intros Hp (Hk & Hmin & _) (Hk' & Hmin' & _).
  apply nth_error_In in Hk, Hk'. apply Qle_antisym.
  - apply Hmin. eapply Permutation_in; [apply Permutation_sym, Hp | exact Hk'].
  - apply Hmin'. eapply Permutation_in; [exact Hp | exact Hk].
Qed.

Lemma voter_at_window (inputs : list Q) (prev_output : option Q) (vt st : Q)
    (i : nat) :
  3 <= length inputs ->
  i <= length inputs - window_length (length inputs) ->
  qualifies (sorted inputs) (window_length (length inputs)) vt i ->
  (forall j, j < i ->
     ~ qualifies (sorted inputs) (window_length (length inputs)) vt j) ->
  smoothing_voter inputs prev_output vt st
    = Ok (Some (nth (i + window_length (length inputs) / 2)
                  (sorted inputs) 0%Q), "median").
Proof.
  intros Hn Hi Hq Hfirst. rewrite smoothing_voter_unfold by exact Hn.
  pose proof (scan_first inputs vt i Hn Hi Hq Hfirst) as E.
  cbv zeta in E. rewrite E. reflexivity.
Qed.

Lemma voter_at_fallback (inputs : list Q) (vt st : Q) :
  3 <= length inputs -> no_window inputs vt ->
  smoothing_voter inputs None vt st
    = Ok (Some (nth (length inputs / 2) (sorted inputs) 0%Q), "median").
Proof.
  intros Hn Hno. rewrite smoothing_voter_unfold by exact Hn.
  rewrite scan_none by assumption. cbn [bind].
  rewrite py_index_nth; [reflexivity|].
  rewrite sorted_length. apply Nat.div_lt; lia.
Qed.

Lemma voter_at_closest (inputs : list Q) (p vt st : Q) :
  3 <= length inputs -> no_window inputs vt ->
  exists k c,
    first_min (fdistance p) inputs k c
    /\ smoothing_voter inputs (Some p) vt st
       = if Qle_bool (fdistance p c) st
         then Ok (Some c, "smoothed") else Ok (None, "none").
Proof.
  intros Hn Hno.
  destruct (py_min_key_first (fdistance p) inputs) as (k & c & Hc & Hk).
  { intro E. rewrite E in Hn. cbn [length] in Hn. lia. }
  exists k, c. split; [exact Hk|].
  rewrite smoothing_voter_unfold by exact Hn.
  rewrite scan_none by assumption. cbn [bind]. rewrite Hc. reflexivity.
Qed.

(** X6.  The voter treats its inputs as an unordered collection, up to the
    choice among equally good readings.  For a rearrangement of at least
    three inputs the classification is the same; a ["median"] value is the
    same number; a ["smoothed"] value is at the same float distance
    [abs(x - p)] from the previous output (two inputs at equal float
    distance can be exchanged by the input order). *)
Theorem voter_order_independent (inputs inputs' : list Q)
    (prev_output : option Q) (voter_threshold smoothing_threshold : Q) :
  Permutation inputs inputs' ->
  3 <= length inputs ->
  exists v v' c,
    smoothing_voter inputs prev_output voter_threshold smoothing_threshold
      = Ok (v, c)
    /\ smoothing_voter inputs' prev_output voter_threshold
         smoothing_threshold = Ok (v', c)
    /\ (c = "median" ->
        exists x x', v = Some x /\ v' = Some x' /\ (x == x')%Q)
    /\ (c = "smoothed" ->
        exists p x x', prev_output = Some p /\ v = Some x /\ v' = Some x'
                       /\ (fdistance p x == fdistance p x')%Q)
    /\ (c = "none" -> v = None /\ v' = None).
Proof.
  intros Hp Hn.
  pose proof (Permutation_length Hp) as Hlen.
  assert (Hn' : 3 <= length inputs') by lia.
  pose proof (sorted_perm_Qeq _ _ Hp) as Hs.
  destruct (voter_cases inputs prev_output voter_threshold
              smoothing_threshold Hn)
    as [i Hi Hq Hfirst | Hno Hprev | p k c Hno Hprev Hk Hd
       | p k c Hno Hprev Hk Hd].
  - rewrite (voter_at_window inputs' prev_output voter_threshold
               smoothing_threshold i Hn').
    + rewrite <- Hlen. eexists _, _, _.
      split; [reflexivity|]. split; [reflexivity|].
      split; [|split; [discriminate | discriminate]].
      intros _. eexists _, _. split; [reflexivity|]. split; [reflexivity|].
      apply Forall2_Qeq_nth, Hs.
    + rewrite <- Hlen. exact Hi.
    + rewrite <- Hlen. eapply qualifies_perm; eassumption.
    + rewrite <- Hlen. intros j Hj Hqj. apply (Hfirst j Hj).
      eapply qualifies_perm; [apply Permutation_sym, Hp | exact Hqj].
  - subst prev_output.
    rewrite (voter_at_fallback inputs' voter_threshold smoothing_threshold
               Hn' (no_window_perm _ _ _ Hp Hno)).
    rewrite <- Hlen. eexists _, _, _.
    split; [reflexivity|]. split; [reflexivity|].
    split; [|split; [discriminate | discriminate]].
    intros _. eexists _, _. split; [reflexivity|]. split; [reflexivity|].
    apply Forall2_Qeq_nth, Hs.
  - subst prev_output.
    destruct (voter_at_closest inputs' p voter_threshold smoothing_threshold
                Hn' (no_window_perm _ _ _ Hp Hno)) as (k' & c' & Hk' & E).
    pose proof (first_min_perm _ _ _ _ _ _ _ Hp Hk Hk') as Hcc.
    assert (E' : Qle_bool (fdistance p c') smoothing_threshold = true).
    { apply Qle_bool_iff. rewrite <- Hcc. exact Hd. }
    rewrite E' in E. rewrite E. eexists _, _, _.
    split; [reflexivity|]. split; [reflexivity|].
    split; [discriminate|]. split; [|discriminate].
    intros _. exists p, c, c'. repeat split. exact Hcc.
  - subst prev_output.
    destruct (voter_at_closest inputs' p voter_threshold smoothing_threshold
                Hn' (no_window_perm _ _ _ Hp Hno)) as (k' & c' & Hk' & E).
    pose proof (first_min_perm _ _ _ _ _ _ _ Hp Hk Hk') as Hcc.
    assert (E' : Qle_bool (fdistance p c') smoothing_threshold = false).
    { apply Qle_bool_false. rewrite <- Hcc. exact Hd. }
    rewrite E' in E. rewrite E. eexists _, _, _.
    split; [reflexivity|]. split; [reflexivity|].
    split; [discriminate|]. split; [discriminate|].
    intros _. split; reflexivity.
Qed.

(** [1.1, -0.9, 50.0] and [-0.9, 1.1, 50.0] with previous output 0.1: the
    float distances of 1.1 and -0.9 are both 1.0; the first list yields
    1.1, the second -0.9, both ["smoothed"]. *)
Lemma voter_order_independent_witness :
  exists v v' c,
    smoothing_voter example_tie (Some (fl (1 # 10))) (1 # 2)%Q 1%Q
      = Ok (v, c)
    /\ smoothing_voter example_tie_swapped (Some (fl (1 # 10))) (1 # 2)%Q 1%Q
       = Ok (v', c)
    /\ (c = "median" ->
        exists x x', v = Some x /\ v' = Some x' /\ (x == x')%Q)
    /\ (c = "smoothed" ->
        exists p x x', Some (fl (1 # 10)) = Some p /\ v = Some x
                       /\ v' = Some x'
                       /\ (fdistance p x == fdistance p x')%Q)
    /\ (c = "none" -> v = None /\ v' = None).
Proof.
  apply (voter_order_independent example_tie example_tie_swapped
           (Some (fl (1 # 10))) (1 # 2)%Q 1%Q).
  - apply perm_swap.
  - eval_length.
Defined.

(** ** Raising a threshold *)

(** X7.  Raising the voter threshold keeps a window result a window
    result: when some window qualifies under [t1] and [t1 <= t2], the voter
    answers ["median"] under both, and the value under [t2] is not greater
    than the value under [t1] (the scan starts at the low end, so a wider
    threshold can only stop it earlier). *)
Theorem raising_voter_threshold (inputs : list Q) (prev_output : option Q)
    (t1 t2 smoothing_threshold : Q) :
  3 <= length inputs ->
  (t1 <= t2)%Q ->
  ~ no_window inputs t1 ->
  exists v1 v2,
    smoothing_voter inputs prev_output t1 smoothing_threshold
      = Ok (Some v1, "median")
    /\ smoothing_voter inputs prev_output t2 smoothing_threshold
       = Ok (Some v2, "median")
    /\ (v2 <= v1)%Q.
Proof.
  intros Hn Ht Hw.
  pose proof (window_length_bounds _ Hn) as Hm.
  destruct (voter_cases inputs prev_output t1 smoothing_threshold Hn)
    as [i Hi Hq _ | Hno _ | p k c Hno _ _ _ | p k c Hno _ _ _];
    try (exfalso; exact (Hw Hno)).
  assert (Hq2 : qualifies (sorted inputs) (window_length (length inputs))
                  t2 i).
  { unfold qualifies in *. eapply Qle_trans; eassumption. }
  destruct (voter_cases inputs prev_output t2 smoothing_threshold Hn)
    as [i' Hi' Hq' Hfirst' | Hno _ | p k c Hno _ _ _ | p k c Hno _ _ _];
    try (exfalso; eapply window_contradiction; eassumption).
  eexists _, _. split; [reflexivity|]. split; [reflexivity|].
  assert (Hle : i' <= i).
  { destruct (Nat.le_gt_cases i' i) as [H | H]; [exact H|].
    exfalso. exact (Hfirst' i H Hq2). }
  assert (Hhalf : window_length (length inputs) / 2
                  < window_length (length inputs))
    by (apply Nat.div_lt; lia).
  apply StronglySorted_nth; [apply sorted_sorted | lia |].
  rewrite sorted_length. lia.
Qed.

(** Of [1, 5, 9, 10, 11] the windows have spreads 8, 5 and 2.  With
    threshold 2 the last one is accepted and yields 10; with threshold 5
    the scan stops at [5, 9, 10] and yields 9. *)
Lemma raising_voter_threshold_witness :
  exists v1 v2,
    smoothing_voter [10; 1; 11; 5; 9]%Q None 2%Q 0%Q = Ok (Some v1, "median")
    /\ smoothing_voter [10; 1; 11; 5; 9]%Q None 5%Q 0%Q
       = Ok (Some v2, "median")
    /\ (v2 <= v1)%Q.
Proof.
  apply (raising_voter_threshold [10; 1; 11; 5; 9]%Q None 2%Q 5%Q 0%Q).
  - eval_length.
  - unfold Qle. simpl. lia.
  - intro H. apply (H 2); [eval_length|].
    unfold qualifies. eval_le.
Defined.

(** X8.  Raising the smoothing threshold never takes a value away: a
    non-null answer under [s1] is the answer, with the same classification,
    under every [s2 >= s1]. *)
Theorem raising_smoothing_threshold (inputs : list Q)
    (prev_output : option Q) (voter_threshold s1 s2 : Q) (v : Q)
    (c : string) :
  (s1 <= s2)%Q ->
  smoothing_voter inputs prev_output voter_threshold s1 = Ok (Some v, c) ->
  smoothing_voter inputs prev_output voter_threshold s2 = Ok (Some v, c).
Proof.
  intros Hs H. pose proof (voter_ok_three _ _ _ _ _ H) as Hn.
  pose proof (voter_cases inputs prev_output voter_threshold s1 Hn) as Hc.
  rewrite H in Hc.
  inversion Hc as [i Hi Hq Hfirst | Hno Hp | p k c' Hno Hp Hk Hd |]; subst.
  - apply voter_at_window; assumption.
  - apply voter_at_fallback; assumption.
  - destruct (voter_at_closest inputs p voter_threshold s2 Hn Hno)
      as (k' & c' & Hk' & E).
    destruct (first_min_unique _ _ _ _ _ _ Hk Hk') as [_ ->].
    rewrite E.
    assert (E' : Qle_bool (fdistance p c') s2 = true).
    { apply Qle_bool_iff. eapply Qle_trans; eassumption. }
    rewrite E'. reflexivity.
Qed.

Lemma raising_smoothing_threshold_witness :
  smoothing_voter [100; 10; 50]%Q (Some 30%Q) (1 # 2)%Q 25%Q
    = Ok (Some 10%Q, "smoothed").
Proof.
  apply (raising_smoothing_threshold [100; 10; 50]%Q (Some 30%Q) (1 # 2)%Q
           20%Q 25%Q).
  - unfold Qle. simpl. lia.
  - vm_compute. reflexivity.
Defined.

(** * Further properties of the sensor group *)

Section GatherProperties.

Variable states_get : string -> option State.
Variable float : string -> result Q.
Variable unit_convert :
  option string -> Q -> option string -> option string -> result Q.

Abbreviation gather' := (gather states_get float unit_convert).
Abbreviation readable' := (readable states_get float unit_convert).
Abbreviation entity_reading' :=
  (entity_reading states_get float unit_convert).
Abbreviation skippable' := (skippable states_get float unit_convert).

Lemma entity_reading_length (b : SensorGroup) (entity_id : string) :
  length (entity_reading' b entity_id) <= 1.
Proof.
  unfold entity_reading. destruct (states_get entity_id) as [st|]; [|simpl; lia].
  destruct (read_state float unit_convert b st); simpl; lia.
Qed.

Lemma readable_length (b : SensorGroup) (ids : list string) :
  length (readable' b ids) <= length ids.
Proof.
  induction ids as [|id rest IH]; [simpl; lia|].
  unfold readable in *. cbn [flat_map]. rewrite length_app.
  pose proof (entity_reading_length b id). simpl. lia.
Qed.

(** What the loop returns, from any accumulator. *)
Lemma gather_acc (b : SensorGroup) (ids : list string) :
  forall acc av vals av',
    gather' b ids acc av = Ok (vals, av') ->
    vals = (acc ++ readable' b ids)%list
    /\ av' = (av || negb (length (readable' b ids) =? 0))%bool.
Proof.
  induction ids as [|id rest IH]; intros acc av vals av' H;
    cbn [gather] in H.
  - injection H as <- <-. cbn. rewrite app_nil_r, orb_false_r. split; reflexivity.
  - unfold readable in *. cbn [flat_map]. unfold entity_reading at 1 3.
    destruct (states_get id) as [st|]; [|exact (IH _ _ _ _ H)].
    destruct (read_state float unit_convert b st) as [x|[| | | |]];
      try discriminate; try exact (IH _ _ _ _ H).
    destruct (IH _ _ _ _ H) as [-> ->].
    rewrite <- app_assoc. split; [reflexivity|].
    cbn. rewrite orb_true_r. reflexivity.
Qed.

(** The loop raises nothing when every entity is skippable. *)
Lemma gather_total (b : SensorGroup) (ids : list string) :
  (forall id, In id ids -> skippable' b id) ->
  forall acc av, exists r, gather' b ids acc av = Ok r.
Proof.
  induction ids as [|id rest IH]; intros Hskip acc av; cbn [gather].
  - eexists; reflexivity.
  - assert (Hrest : forall id', In id' rest -> skippable' b id')
      by (intros id' Hid; apply Hskip; right; exact Hid).
    pose proof (Hskip id (or_introl eq_refl)) as Hid.
    unfold skippable in Hid.
    destruct (states_get id) as [st|]; [|apply IH, Hrest].
    destruct (read_state float unit_convert b st) as [x|[| | | |]];
      try contradiction; apply IH, Hrest.
Qed.

(** X9.  The gathering loop collects, in the order of the entity ids, the
    reading of every entity that has a state and whose state reads as a
    number; entities without a state or raising [ValueError] or [KeyError]
    are skipped.  [any_valid] says that the collection is not empty, and
    there is at most one reading per entity id.  When no entity raises
    another exception the loop returns. *)
Theorem gather_collects_readable (b : SensorGroup) (ids : list string) :
  (forall vals any_valid,
      gather' b ids [] false = Ok (vals, any_valid) ->
      vals = readable' b ids
      /\ any_valid = negb (length vals =? 0)
      /\ length vals <= length ids)
  /\ ((forall id, In id ids -> skippable' b id) ->
      exists vals any_valid, gather' b ids [] false = Ok (vals, any_valid)).
Proof.
  split.
  - intros vals any_valid H. destruct (gather_acc _ _ _ _ _ _ H) as [-> ->].
    cbn [app orb]. repeat split. apply readable_length.
  - intro Hskip. destruct (gather_total b ids Hskip [] false) as [[vals av] H].
    exists vals, av. exact H.
Qed.

End GatherProperties.

(** On the example installation with [sensor.c] unavailable the loop
    collects the readings of [sensor.a] and [sensor.b]. *)
Lemma gather_collects_readable_witness :
  exists vals any_valid,
    gather (example_states "unavailable") example_float example_convert
      example_group (_entity_ids example_group) [] false
      = Ok (vals, any_valid)
    /\ vals = [100; 10]%Q /\ any_valid = true.
Proof.
  destruct (gather_collects_readable (example_states "unavailable")
              example_float example_convert example_group
              (_entity_ids example_group)) as [Hret Htot].
  destruct Htot as (vals & any_valid & H).
  { intros id Hid. simpl in Hid.
    destruct Hid as [<- | [<- | [<- | []]]]; vm_compute; exact I. }
  exists vals, any_valid. split; [exact H|].
  destruct (Hret vals any_valid H) as (-> & -> & _).
  split; reflexivity.
Defined.

Section UpdateProperties.

Variable states_get : string -> option State.
Variable float : string -> result Q.
Variable unit_convert :
  option string -> Q -> option string -> option string -> result Q.
Variable calculate_state_attributes : SensorGroup -> SensorGroup.

Abbreviation update :=
  (async_update_group_state states_get float unit_convert
     calculate_state_attributes).
Abbreviation readings' :=
  (readings states_get float unit_convert calculate_state_attributes).
Abbreviation current_readings self :=
  (readable states_get float unit_convert
     (calculate_state_attributes (base self))
     (_entity_ids (calculate_state_attributes (base self)))).

Lemma readings_readable (self : SmoothingVoterSensorGroup) (vals : list Q)
    (av : bool) :
  readings' self = Ok (vals, av) -> vals = current_readings self.
Proof.
  unfold readings. intro H.
  destruct (gather_acc _ _ _ _ _ _ _ _ _ H) as [-> _]. reflexivity.
Qed.

(** The update never touches the thresholds. *)
Lemma update_thresholds (self : SmoothingVoterSensorGroup) :
  _voter_threshold (after (update self)) = _voter_threshold self
  /\ _smoothing_threshold (after (update self)) = _smoothing_threshold self.
Proof.
  unfold async_update_group_state.
  destruct (gather _ _ _ _ _ _ _) as [[vals av]|e]; [|split; reflexivity].
  destruct (negb _); [split; reflexivity|].
  destruct (smoothing_voter _ _ _ _) as [[[v|] c]|[| | | |]];
    split; reflexivity.
Qed.

(** An update that raises leaves value, classification and previous output
    as they were. *)
Lemma update_raise_frame (self : SmoothingVoterSensorGroup) (e : exn) :
  raised (update self) = Some e ->
  _attr_native_value (after (update self)) = _attr_native_value self
  /\ _calculation_type (after (update self)) = _calculation_type self
  /\ _prev_output (after (update self)) = _prev_output self.
Proof.
  unfold async_update_group_state.
  destruct (gather _ _ _ _ _ _ _) as [[vals av]|e'];
    [|intros _; repeat split].
  destruct (negb _); [discriminate|].
  destruct (smoothing_voter _ _ _ _) as [[[v|] c]|[| | | |]];
    try discriminate; intros _; repeat split.
Qed.

Lemma update_consistent (self : SmoothingVoterSensorGroup) :
  consistent self -> consistent (after (update self)).
Proof.
  intros (Htag & Hnone & Hprev).
  destruct (update_paths states_get float unit_convert
              calculate_state_attributes self)
    as [e G Ht Hr Hp
       | vals av G Hlt Ht Hr Ha Hv Hc Hp
       | vals av v c G Hge E Hvc Ht Hr Ha Hv Hc Hp].
  - destruct (update_raise_frame self e Hr) as (En & Ec & Ep).
    unfold consistent. rewrite En, Ec, Ep. repeat split; try assumption;
      apply Hnone.
  - unfold consistent. rewrite Hv, Hc. repeat split; auto. discriminate.
  - unfold consistent. rewrite Hv, Hc, Hp. destruct v as [x|].
    + destruct Hvc as [_ Hc']. repeat split.
      * destruct Hc' as [-> | ->]; auto.
      * intros ->. destruct Hc'; discriminate.
      * discriminate.
      * intros v Hx. exact Hx.
    + subst c. repeat split; auto. discriminate.
Qed.

(** X10.  A group whose entity list has fewer than three entries never
    calls the voter and never changes its previous output; an update that
    completes leaves it unavailable, with a null value classified
    ["none"]. *)
Theorem few_entities_never_vote (self : SmoothingVoterSensorGroup) :
  length (_entity_ids (calculate_state_attributes (base self))) < 3 ->
  trace (update self) = []
  /\ _prev_output (after (update self)) = _prev_output self
  /\ (raised (update self) = None ->
      _attr_available (after (update self)) = false
      /\ _attr_native_value (after (update self)) = None
      /\ _calculation_type (after (update self)) = "none").
Proof.
  intro Hfew.
  destruct (update_paths states_get float unit_convert
              calculate_state_attributes self)
    as [e G Ht Hr Hp
       | vals av G Hlt Ht Hr Ha Hv Hc Hp
       | vals av v c G Hge E Hvc Ht Hr Ha Hv Hc Hp].
  - split; [exact Ht|]. split; [exact Hp|]. rewrite Hr. discriminate.
  - split; [exact Ht|]. split; [exact Hp|]. intros _. repeat split; assumption.
  - exfalso. pose proof (readings_readable _ _ _ G) as ->.
    pose proof (readable_length states_get float unit_convert
                  (calculate_state_attributes (base self))
                  (_entity_ids (calculate_state_attributes (base self)))).
    lia.
Qed.

(** X11.  When an update completes, the sensor is available exactly when
    at least three entities provide a numeric reading in this cycle, and
    exactly then the voter was called. *)
Theorem available_iff_three_readings (self : SmoothingVoterSensorGroup) :
  raised (update self) = None ->
  (_attr_available (after (update self)) = true
   <-> 3 <= length (current_readings self))
  /\ (_attr_available (after (update self)) = true
      <-> trace (update self) <> []).
Proof.
  intro Hnr.
  destruct (update_paths states_get float unit_convert
              calculate_state_attributes self)
    as [e G Ht Hr Hp
       | vals av G Hlt Ht Hr Ha Hv Hc Hp
       | vals av v c G Hge E Hvc Ht Hr Ha Hv Hc Hp].
  - congruence.
  - pose proof (readings_readable _ _ _ G) as <-.
    rewrite Ha, Ht. split; split; try discriminate; try lia.
    intro H. contradiction.
  - pose proof (readings_readable _ _ _ G) as <-.
    rewrite Ha, Ht. split; split; try reflexivity; try discriminate.
    intros _. exact Hge.
Qed.

(** X12.  When an update completes with a non-null native value, that
    value is one of the readings gathered in this very cycle: the previous
    output steers the choice but is never shown in place of a reading. *)
Theorem native_value_is_current_reading (self : SmoothingVoterSensorGroup)
    (v : Q) :
  raised (update self) = None ->
  _attr_native_value (after (update self)) = Some v ->
  In v (current_readings self)
  /\ _prev_output (after (update self)) = Some v.
Proof.
  intros Hnr Hnat.
  destruct (update_paths states_get float unit_convert
              calculate_state_attributes self)
    as [e G Ht Hr Hp
       | vals av G Hlt Ht Hr Ha Hv Hc Hp
       | vals av v' c G Hge E Hvc Ht Hr Ha Hv Hc Hp].
  - congruence.
  - congruence.
  - pose proof (readings_readable _ _ _ G) as <-.
    rewrite Hv in Hnat. subst v'. split; [apply Hvc | exact Hp].
Qed.

(** X13.  The first answer of a sensor that has no previous output is
    always a value: with at least three readings the update yields one of
    them, classified ["median"], and stores it as previous output. *)
Theorem first_answer_is_median (self : SmoothingVoterSensorGroup) :
  _prev_output self = None ->
  raised (update self) = None ->
  3 <= length (current_readings self) ->
  exists v,
    In v (current_readings self)
    /\ _attr_native_value (after (update self)) = Some v
    /\ _calculation_type (after (update self)) = "median"
    /\ _prev_output (after (update self)) = Some v.
Proof.
  intros Hprev Hnr Hthree.
  destruct (update_paths states_get float unit_convert
              calculate_state_attributes self)
    as [e G Ht Hr Hp
       | vals av G Hlt Ht Hr Ha Hv Hc Hp
       | vals av v c G Hge E Hvc Ht Hr Ha Hv Hc Hp].
  - congruence.
  - pose proof (readings_readable _ _ _ G) as Er. rewrite <- Er in Hthree. lia.
  - pose proof (readings_readable _ _ _ G) as Er. rewrite <- Er.
    rewrite Hprev in E.
    pose proof (voter_cases vals None (_voter_threshold self)
                  (_smoothing_threshold self) Hge) as Hcase.
    rewrite E in Hcase. clear E Ht.
    revert Hvc Hv Hc Hp.
    inversion Hcase as [i Hi Hq Hf | Hno _ | p k c' _ Hp' _ _
                       | p k c' _ Hp' _ _]; subst v c; try discriminate;
      intros Hvc Hv Hc Hp; eexists;
      (split; [apply Hvc|]); repeat split; assumption.
Qed.

End UpdateProperties.

Lemma few_entities_never_vote_witness :
  trace (async_update_group_state (example_states "50") example_float
           example_convert (fun b => b)
           (init example_pair_group (1 # 2)%Q 1%Q)) = []
  /\ _prev_output
       (after (async_update_group_state (example_states "50") example_float
                 example_convert (fun b => b)
                 (init example_pair_group (1 # 2)%Q 1%Q))) = None.
Proof.
  destruct (few_entities_never_vote (example_states "50") example_float
              example_convert (fun b => b)
              (init example_pair_group (1 # 2)%Q 1%Q)) as (Ht & Hp & _).
  - eval_length.
  - split; [exact Ht | exact Hp].
Defined.

Lemma available_iff_three_readings_witness :
  _attr_available
    (after (async_update_group_state (example_states "unavailable")
              example_float example_convert (fun b => b) example_sensor))
    = true
  <-> 3 <= length (readable (example_states "unavailable") example_float
                     example_convert (base example_sensor)
                     (_entity_ids (base example_sensor))).
Proof.
  apply (available_iff_three_readings (example_states "unavailable")
           example_float example_convert (fun b => b) example_sensor).
  vm_compute. reflexivity.
Defined.

Lemma native_value_is_current_reading_witness :
  In 50%Q (readable (example_states "50") example_float example_convert
             (base example_fresh) (_entity_ids (base example_fresh)))
  /\ _prev_output
       (after (async_update_group_state (example_states "50") example_float
                 example_convert (fun b => b) example_fresh)) = Some 50%Q.
Proof.
  apply (native_value_is_current_reading (example_states "50") example_float
           example_convert (fun b => b) example_fresh 50%Q);
    vm_compute; reflexivity.
Defined.

Lemma first_answer_is_median_witness :
  exists v,
    In v (readable (example_states "50") example_float example_convert
            (base example_fresh) (_entity_ids (base example_fresh)))
    /\ _attr_native_value
         (after (async_update_group_state (example_states "50")
                   example_float example_convert (fun b => b) example_fresh))
       = Some v
    /\ _calculation_type
         (after (async_update_group_state (example_states "50")
                   example_float example_convert (fun b => b) example_fresh))
       = "median"
    /\ _prev_output
         (after (async_update_group_state (example_states "50")
                   example_float example_convert (fun b => b) example_fresh))
       = Some v.
Proof.
  apply (first_answer_is_median (example_states "50") example_float
           example_convert (fun b => b) example_fresh).
  - vm_compute. reflexivity.
  - vm_compute. reflexivity.
  - eval_length.
Defined.

(** ** Runs of update cycles *)

Lemma init_consistent (b : SensorGroup) (vt st : Q) :
  consistent (init b vt st).
Proof.
  unfold consistent, init. cbn. repeat split; auto; discriminate.
Qed.

Lemma update_keeps_prev_output (states_get : string -> option State)
    (float : string -> result Q)
    (unit_convert :
       option string -> Q -> option string -> option string -> result Q)
    (calculate_state_attributes : SensorGroup -> SensorGroup)
    (self : SmoothingVoterSensorGroup) (v : Q) :
  _prev_output self = Some v ->
  exists v',
    _prev_output
      (after (async_update_group_state states_get float unit_convert
                calculate_state_attributes self)) = Some v'.
Proof.
  intro H.
  destruct (update_paths states_get float unit_convert
              calculate_state_attributes self)
    as [e G Ht Hr Hp
       | vals av G Hlt Ht Hr Ha Hv Hc Hp
       | vals av v0 c G Hge E Hvc Ht Hr Ha Hv Hc Hp];
    rewrite Hp; try (exists v; exact H).
  destruct v0 as [x|]; [exists x; reflexivity | exists v; exact H].
Qed.

(** X14.  Every run of update cycles keeps a consistent sensor consistent
    and leaves its thresholds alone: the classification is one of the
    three tags, it is ["none"] exactly when the native value is null, and
    a non-null native value equals the stored previous output.  A freshly
    constructed sensor is consistent. *)
Theorem cycles_keep_consistent (float : string -> result Q)
    (unit_convert :
       option string -> Q -> option string -> option string -> result Q)
    (snapshots : list Hass) (self : SmoothingVoterSensorGroup) :
  consistent self ->
  consistent (cycles float unit_convert snapshots self)
  /\ _voter_threshold (cycles float unit_convert snapshots self)
     = _voter_threshold self
  /\ _smoothing_threshold (cycles float unit_convert snapshots self)
     = _smoothing_threshold self.
Proof.
  revert self. induction snapshots as [|h rest IH]; intros self Hc;
    cbn [cycles].
  - repeat split; apply Hc.
  - destruct (update_thresholds (hass_states_get h) float unit_convert
                (hass_calculate_state_attributes h) self) as [Ev Es].
    destruct (IH _ (update_consistent (hass_states_get h) float unit_convert
                      (hass_calculate_state_attributes h) self Hc))
      as (Hc' & Ev' & Es').
    split; [exact Hc'|]. split; congruence.
Qed.

Lemma cycles_keep_consistent_witness :
  consistent (cycles example_float example_convert example_snapshots
                example_fresh)
  /\ _voter_threshold (cycles example_float example_convert
                         example_snapshots example_fresh) = (1 # 2)%Q
  /\ _smoothing_threshold (cycles example_float example_convert
                             example_snapshots example_fresh) = 1%Q.
Proof.
  apply (cycles_keep_consistent example_float example_convert
           example_snapshots example_fresh).
  apply init_consistent.
Defined.

(** X15.  Once a previous output is stored, no run of update cycles clears
    it: cycles with too few readings, with a ["none"] answer or with an
    exception keep it, and the other cycles overwrite it. *)
Theorem prev_output_never_cleared (float : string -> result Q)
    (unit_convert :
       option string -> Q -> option string -> option string -> result Q)
    (snapshots : list Hass) (self : SmoothingVoterSensorGroup) (v : Q) :
  _prev_output self = Some v ->
  exists v',
    _prev_output (cycles float unit_convert snapshots self) = Some v'.
Proof.
  revert self v. induction snapshots as [|h rest IH]; intros self v H;
    cbn [cycles].
  - exists v. exact H.
  - destruct (update_keeps_prev_output (hass_states_get h) float unit_convert
                (hass_calculate_state_attributes h) self v H) as [v1 H1].
    exact (IH _ v1 H1).
Qed.

Lemma prev_output_never_cleared_witness :
  exists v',
    _prev_output (cycles example_float example_convert example_snapshots
                    example_sensor) = Some v'.
Proof.
  apply (prev_output_never_cleared example_float example_convert
           example_snapshots example_sensor 30%Q).
  reflexivity.
Defined.

(** * State attributes, set-up and the configuration flows *)

Lemma dict_get_set_same {V : Type} (d : dict V) (k : string) (v : V) :
  dict_get (dict_set d k v) k = Some v.
Proof.
  induction d as [|[k' v'] t IH]; cbn [dict_set dict_get].
  - destruct (string_dec k k); [reflexivity | contradiction].
  - destruct (string_dec k' k) as [E | E]; cbn [dict_get].
    + destruct (string_dec k' k); [reflexivity | contradiction].
    + destruct (string_dec k' k); [contradiction | exact IH].
Qed.

Lemma dict_get_set_other {V : Type} (d : dict V) (k k0 : string) (v : V) :
  k0 <> k -> dict_get (dict_set d k v) k0 = dict_get d k0.
Proof.
  intro Hne. induction d as [|[k' v'] t IH]; cbn [dict_set dict_get].
  - destruct (string_dec k k0); [congruence | reflexivity].
  - destruct (string_dec k' k) as [E | E]; cbn [dict_get].
    + destruct (string_dec k' k0); [congruence | reflexivity].
    + destruct (string_dec k' k0); [reflexivity | exact IH].
Qed.

Lemma dict_set_keys {V : Type} (d : dict V) (k : string) (v : V) :
  map fst (dict_set d k v) =
    if in_dec string_dec k (map fst d) then map fst d
    else (map fst d ++ [k])%list.
Proof.
  induction d as [|[k' v'] t IH]; cbn [dict_set map fst].
  - destruct (in_dec string_dec k []) as [[] | _]. reflexivity.
  - destruct (string_dec k' k) as [E | E]; cbn [map fst].
    + destruct (in_dec string_dec k (k' :: map fst t)) as [_ | Hn];
        [reflexivity|].
      exfalso. apply Hn. left. exact E.
    + rewrite IH.
      destruct (in_dec string_dec k (map fst t)) as [Hin | Hn],
               (in_dec string_dec k (k' :: map fst t)) as [Hin' | Hn'];
        try reflexivity.
      * exfalso. apply Hn'. right. exact Hin.
      * exfalso. destruct Hin' as [E' | Hin']; [exact (E E') | exact (Hn Hin')].
Qed.

(** X16.  The state attributes carry the classification under the key
    ["calculation_type"], in place of any attribute of that name of the
    base class; every other attribute is the one of the base class, and the
    keys keep their order, a new key going last. *)
Theorem calculation_type_attribute (super_attributes : dict Any)
    (self : SmoothingVoterSensorGroup) :
  dict_get (extra_state_attributes super_attributes self) "calculation_type"
    = Some (AnyStr (_calculation_type self))
  /\ (forall k, k <> "calculation_type" ->
        dict_get (extra_state_attributes super_attributes self) k
          = dict_get super_attributes k)
  /\ map fst (extra_state_attributes super_attributes self) =
       if in_dec string_dec "calculation_type" (map fst super_attributes)
       then map fst super_attributes
       else (map fst super_attributes ++ ["calculation_type"])%list.
Proof.
  unfold extra_state_attributes. split; [apply dict_get_set_same|].
  split; [intros k Hk; apply dict_get_set_other, Hk | apply dict_set_keys].
Qed.

Section AttributesAfterUpdate.

Variable states_get : string -> option State.
Variable float : string -> result Q.
Variable unit_convert :
  option string -> Q -> option string -> option string -> result Q.
Variable calculate_state_attributes : SensorGroup -> SensorGroup.

Abbreviation update :=
  (async_update_group_state states_get float unit_convert
     calculate_state_attributes).
Abbreviation current_readings self :=
  (readable states_get float unit_convert
     (calculate_state_attributes (base self))
     (_entity_ids (calculate_state_attributes (base self)))).

(** X17.  After an update that completes, the ["calculation_type"]
    attribute is ["none"] when fewer than three readings were gathered,
    and otherwise the classification the voter gives for the readings of
    this cycle and the previous output stored before it, next to the
    native value the voter returned. *)
Theorem calculation_type_after_update (super_attributes : dict Any)
    (self : SmoothingVoterSensorGroup) :
  raised (update self) = None ->
  exists c,
    dict_get (extra_state_attributes super_attributes (after (update self)))
      "calculation_type" = Some (AnyStr c)
    /\ ((length (current_readings self) < 3 /\ c = "none"
         /\ _attr_native_value (after (update self)) = None)
        \/ (3 <= length (current_readings self)
            /\ smoothing_voter (current_readings self) (_prev_output self)
                 (_voter_threshold self) (_smoothing_threshold self)
               = Ok (_attr_native_value (after (update self)), c))).
Proof.
  intro Hnr. exists (_calculation_type (after (update self))).
  split; [apply dict_get_set_same|].
  destruct (update_paths states_get float unit_convert
              calculate_state_attributes self)
    as [e G Ht Hr Hp
       | vals av G Hlt Ht Hr Ha Hv Hc Hp
       | vals av v c G Hge E Hvc Ht Hr Ha Hv Hc Hp].
  - congruence.
  - left. unfold readings in G.
    destruct (gather_acc _ _ _ _ _ _ _ _ _ G) as [Ev _]. cbn [app] in Ev.
    rewrite <- Ev. repeat split; assumption.
  - right. unfold readings in G.
    destruct (gather_acc _ _ _ _ _ _ _ _ _ G) as [Ev _]. cbn [app] in Ev.
    rewrite <- Ev, Hv, Hc. split; assumption.
Qed.

End AttributesAfterUpdate.

Lemma calculation_type_after_update_witness :
  exists c,
    dict_get
      (extra_state_attributes [("entity_id", AnyList ["sensor.a"])]
         (after (async_update_group_state (example_states "50")
                   example_float example_convert (fun b => b)
                   example_sensor)))
      "calculation_type" = Some (AnyStr c)
    /\ c = "none".
Proof.
  destruct (calculation_type_after_update (example_states "50")
              example_float example_convert (fun b => b)
              [("entity_id", AnyList ["sensor.a"])] example_sensor)
    as (c & Hc & Hor).
  - vm_compute. reflexivity.
  - exists c. split; [exact Hc|].
    destruct Hor as [(_ & E & _) | (_ & E)]; [exact E|].
    vm_compute in E. injection E as E'. symmetry. exact E'.
Defined.

Section FlowProperties.

Variable EntityRegistry : Type.
Variable entity_registry_async_get : result EntityRegistry.
Variable async_validate_entity_ids :
  EntityRegistry -> list string -> result (list string).
Variable sensor_group_init :
  option string -> option string -> list string -> bool -> string ->
  SensorGroup.

Abbreviation step_user :=
  (async_step_user EntityRegistry entity_registry_async_get
     async_validate_entity_ids).
Abbreviation step_import :=
  (async_step_import EntityRegistry entity_registry_async_get
     async_validate_entity_ids).
Abbreviation step_init :=
  (async_step_init EntityRegistry entity_registry_async_get
     async_validate_entity_ids).
Abbreviation setup_entry := (async_setup_entry sensor_group_init).

(** X18.  With three or more entities selected, the user step, the import
    step and the options step look up the entity registry before they read
    any other field; when that look-up raises, the step raises the same
    exception: no entry is created and no form is shown, whatever the
    name, the thresholds and the current options. *)
Theorem registry_failure_leaves_step (options user_input : ConfDict)
    (selected : list string) (e : exn) :
  conf_entities user_input = Some selected ->
  3 <= length selected ->
  entity_registry_async_get = Raise e ->
  step_user (Some user_input) = Raise e
  /\ step_import (Some user_input) = Raise e
  /\ step_init options (Some user_input) = Raise e.
Proof.
  intros Hsel Hge Hreg.
  assert (E : (3 <=? length selected) = true) by (apply Nat.leb_le; exact Hge).
  unfold async_step_import, async_step_user, async_step_init.
  rewrite Hsel. cbn [getitem bind]. rewrite E, Hreg.
  repeat split.
Qed.

(** X19.  An input that selects fewer than three entities is turned down
    by both flows: the form is shown again with the error
    ["not_enough_entities"] under ["base"], nothing is created, and neither
    the other fields of the input nor the registry are consulted. *)
Theorem too_few_entities_rejected (options user_input : ConfDict)
    (selected : list string) :
  conf_entities user_input = Some selected ->
  length selected < 3 ->
  (exists schema,
      step_user (Some user_input)
        = Ok (ShowForm "user" schema [("base", "not_enough_entities")]))
  /\ (exists schema,
         step_init options (Some user_input)
           = Ok (ShowForm "init" schema [("base", "not_enough_entities")]))
  /\ step_import (Some user_input) = step_user (Some user_input).
Proof.
  intros Hsel Hlt.
  assert (E : (3 <=? length selected) = false) by (apply Nat.leb_gt; lia).
  unfold async_step_import, async_step_user, async_step_init.
  rewrite Hsel. cbn [getitem bind]. rewrite E.
  split; [eexists; reflexivity|]. split; [eexists; reflexivity|].
  reflexivity.
Qed.


End FlowProperties.

(** ** The example configuration *)

Lemma registry_failure_leaves_step_witness :
  async_step_user unit example_registry_lookup example_validate
    (Some example_user_input)
    = Raise (TypeError "async_get() missing 1 required positional argument")
  /\ async_step_import unit example_registry_lookup example_validate
       (Some example_user_input)
     = Raise (TypeError "async_get() missing 1 required positional argument")
  /\ async_step_init unit example_registry_lookup example_validate
       example_bare_options (Some example_user_input)
     = Raise (TypeError "async_get() missing 1 required positional argument").
Proof.
  apply (registry_failure_leaves_step unit example_registry_lookup
           example_validate example_bare_options example_user_input
           ["sensor.a"; "sensor.b"; "sensor.c"]).
  - reflexivity.
  - simpl. lia.
  - reflexivity.
Defined.

Lemma too_few_entities_rejected_witness :
  exists schema,
    async_step_user unit example_registry_lookup example_validate
      (Some example_short_input)
      = Ok (ShowForm "user" schema [("base", "not_enough_entities")]).
Proof.
  apply (too_few_entities_rejected unit example_registry_lookup
           example_validate example_bare_options example_short_input
           ["sensor.a"; "sensor.b"]).
  - reflexivity.
  - simpl. lia.
Defined.

